(** * mlrun: marketplace-sources migration, frontend-spec schemas and the
      TSDB connector interface.

    A shallow embedding of three source files:
    - [mlrun/api/migrations/versions/deac06871ace_adding_marketplace_sources_table.py]
    - [mlrun/api/schemas/frontend_spec.py]
    - [mlrun/model_monitoring/db/tsdb/base.py]
*)

From stdpp Require Import gmap strings list fin_maps pretty.
From Stdlib Require Import ZArith Ascii String.

Open Scope string_scope.
Open Scope list_scope.
Open Scope Z_scope.

(** ** Results of fallible operations

    Python raises; the embedding returns [Raise e] instead. *)

Inductive result (E A : Type) : Type :=
| Ok (a : A)
| Raise (e : E).
Arguments Ok {E A} a.
Arguments Raise {E A} e.

Definition is_ok {E A} (r : result E A) : bool :=
  match r with Ok _ => true | Raise _ => false end.

Definition bind {E A B} (r : result E A) (k : A -> result E B) : result E B :=
  match r with Ok a => k a | Raise e => Raise e end.

(** * The migration [deac06871ace] *)

Module Migration.

(** Column types used by the migration: [sa.Integer()], [sa.String()],
    [sa.TIMESTAMP()], [sa.JSON()]. *)
Inductive SaType := Integer | String_ | TIMESTAMP | JSON.

(** [sa.Column(name, type, nullable=...)] *)
Record Column := mkColumn {
  col_name : string;
  col_type : SaType;
  nullable : bool
}.

(** [sa.PrimaryKeyConstraint(cols...)] and [sa.UniqueConstraint(cols..., name=...)] *)
Inductive Constraint :=
| PrimaryKeyConstraint (cols : list string)
| UniqueConstraint (cols : list string) (name : option string).

Record Table := mkTable {
  columns : list Column;
  constraints : list Constraint
}.

#[global] Instance SaType_eq_dec : EqDecision SaType.
Proof. solve_decision. Defined.
#[global] Instance Column_eq_dec : EqDecision Column.
Proof. solve_decision. Defined.
#[global] Instance Constraint_eq_dec : EqDecision Constraint.
Proof. solve_decision. Defined.
#[global] Instance Table_eq_dec : EqDecision Table.
Proof. solve_decision. Defined.

(** The database schema: table name to table definition. *)
Abbreviation Schema := (gmap string Table).

Inductive DDLError :=
| TableAlreadyExists (name : string)
| NoSuchTable (name : string).

(** [op.create_table(name, columns and constraints...)]: CREATE TABLE fails
    when a table of that name is already there. *)
Definition create_table (name : string) (cols : list Column)
    (cons : list Constraint) (db : Schema) : result DDLError Schema :=
  match db !! name with
  | Some _ => Raise (TableAlreadyExists name)
  | None => Ok (<[name := mkTable cols cons]> db)
  end.

(** [op.drop_table(name)]: DROP TABLE fails when there is no such table. *)
Definition drop_table (name : string) (db : Schema) : result DDLError Schema :=
  match db !! name with
  | Some _ => Ok (delete name db)
  | None => Raise (NoSuchTable name)
  end.

Definition revision : string := "deac06871ace".
Definition down_revision : string := "e1dd5983c06b".

Definition marketplace_sources_columns : list Column :=
  [ mkColumn "id" Integer false;
    mkColumn "name" String_ true;
    mkColumn "index" Integer true;
    mkColumn "created" TIMESTAMP true;
    mkColumn "updated" TIMESTAMP true;
    mkColumn "object" JSON true ].

Definition marketplace_sources_constraints : list Constraint :=
  [ PrimaryKeyConstraint ["id"];
    UniqueConstraint ["name"] (Some "_marketplace_sources_uc") ].

Definition upgrade (db : Schema) : result DDLError Schema :=
  create_table "marketplace_sources"
    marketplace_sources_columns marketplace_sources_constraints db.

Definition downgrade (db : Schema) : result DDLError Schema :=
  drop_table "marketplace_sources" db.

(** The table as [upgrade] leaves it. *)
Definition marketplace_sources : Table :=
  mkTable marketplace_sources_columns marketplace_sources_constraints.

(** ** Rows and the constraints the storage layer checks on INSERT

    The table belongs to the service's SQLite database; rows reach it
    through the typed columns above and the database driver. *)

Inductive SqlValue :=
| NULL
| VInt (z : Z)
| VStr (s : string)
| VTimestamp (t : Z)
| VJson (doc : string).

#[global] Instance SqlValue_eq_dec : EqDecision SqlValue.
Proof. solve_decision. Defined.

(** A row of [marketplace_sources] as the application hands it to the
    database: for every column a value of the column's type, or nothing.
    A value of another type in a column is not a row of this model. *)
Record Row := mkRow {
  row_id : option Z;
  row_name : option string;
  row_index : option Z;
  row_created : option Z;
  row_updated : option Z;
  row_object : option string
}.

#[global] Instance Row_eq_dec : EqDecision Row.
Proof. solve_decision. Defined.

(** The value a row holds in a column; a column that got no value holds
    NULL. *)
Definition cell (r : Row) (c : string) : SqlValue :=
  if String.eqb c "id" then from_option VInt NULL (row_id r)
  else if String.eqb c "name" then from_option VStr NULL (row_name r)
  else if String.eqb c "index" then from_option VInt NULL (row_index r)
  else if String.eqb c "created" then from_option VTimestamp NULL (row_created r)
  else if String.eqb c "updated" then from_option VTimestamp NULL (row_updated r)
  else if String.eqb c "object" then from_option VJson NULL (row_object r)
  else NULL.

Definition is_null (v : SqlValue) : bool :=
  match v with NULL => true | _ => false end.

(** SQLite's INTEGER is a signed 64-bit integer; the driver refuses an
    int beyond it. *)
Definition int64 (z : Z) : bool := (- 2 ^ 63 <=? z) && (z <? 2 ^ 63).

Definition in_range (v : SqlValue) : bool :=
  match v with
  | VInt z => int64 z
  | _ => true
  end.

(** What one column demands of the row that is stored: an integer within
    64 bits, and NOT NULL unless the column is nullable. *)
Definition column_ok (r : Row) (c : Column) : bool :=
  in_range (cell r (col_name c))
  && (nullable c || negb (is_null (cell r (col_name c)))).

(** Two rows collide on a key when every key column holds the same non-NULL
    value in both: SQL's UNIQUE compares only non-NULL values, so a NULL in
    a key column never collides. *)
Definition collide (cols : list string) (r r' : Row) : bool :=
  forallb (fun c => negb (is_null (cell r c)) && bool_decide (cell r c = cell r' c)) cols.

Definition constraint_cols (k : Constraint) : list string :=
  match k with
  | PrimaryKeyConstraint cols => cols
  | UniqueConstraint cols _ => cols
  end.

Definition constraint_ok (rows : list Row) (r : Row) (k : Constraint) : bool :=
  forallb (fun r' => negb (collide (constraint_cols k) r r')) rows.

(** Why an INSERT is refused: a column refuses the value it is given (NULL
    where the column is NOT NULL, or an integer beyond 64 bits), a
    constraint is violated, or no id is left for the row. *)
Inductive IntegrityError :=
| ColumnViolation (c : string)
| ConstraintViolation (k : Constraint)
| DatabaseFull.

(** In SQLite a primary key that is one column of type INTEGER is the row
    id of the table: the database itself gives a row that comes without
    one an id. *)
Definition id_is_rowid (t : Table) : bool :=
  existsb (fun k => bool_decide (k = PrimaryKeyConstraint ["id"])) (constraints t)
  && existsb (fun c => bool_decide (col_name c = "id" /\ col_type c = Integer))
       (columns t).

Definition stored_ids (rows : list Row) : list Z := omap row_id rows.

Definition max_rowid : Z := 2 ^ 63 - 1.

(** The least positive id no row has, if there is one up to the number of
    rows plus one. *)
Definition least_unused (ids : list Z) : option Z :=
  List.find (fun k => negb (bool_decide (k ∈ ids)))
    (seqZ 1 (Z.of_nat (List.length ids) + 1)).

(** The id SQLite gives a new row: 1 in an empty table, otherwise one more
    than the largest id in the table. Only when the largest id is the
    largest possible one does SQLite draw unused positive ids at random;
    the model takes the least of them. *)
Definition new_rowid (rows : list Row) : option Z :=
  match stored_ids rows with
  | [] => Some 1
  | i :: ids =>
    let largest := foldr Z.max i ids in
    if largest <? max_rowid then Some (largest + 1) else least_unused (i :: ids)
  end.

Definition with_id (i : Z) (r : Row) : Row :=
  mkRow (Some i) (row_name r) (row_index r) (row_created r) (row_updated r)
        (row_object r).

(** The row as it will be stored: the given row, with a new id if it
    came without one. *)
Definition assign_id (t : Table) (rows : list Row) (r : Row)
  : result IntegrityError Row :=
  match row_id r with
  | Some _ => Ok r
  | None =>
    if id_is_rowid t then
      match new_rowid rows with
      | Some i => Ok (with_id i r)
      | None => Raise DatabaseFull
      end
    else Ok r
  end.

(** INSERT of one row into a table holding [rows]: the row gets its id,
    the columns and then the constraints are checked, and the row is
    stored after the others. *)
Definition insert_row (t : Table) (rows : list Row) (r : Row)
  : result IntegrityError (list Row) :=
  match assign_id t rows r with
  | Raise e => Raise e
  | Ok stored =>
    match List.find (fun c => negb (column_ok stored c)) (columns t) with
    | Some c => Raise (ColumnViolation (col_name c))
    | None =>
      match List.find (fun k => negb (constraint_ok rows stored k)) (constraints t) with
      | Some k => Raise (ConstraintViolation k)
      | None => Ok (rows ++ [stored])
      end
    end
  end.

(** The contents a table can have: those built from the empty table by
    successful INSERTs. *)
Inductive reachable (t : Table) : list Row -> Prop :=
| reach_empty : reachable t []
| reach_insert rows r rows' :
    reachable t rows -> insert_row t rows r = Ok rows' -> reachable t rows'.

(** Every two distinct rows of a table differ in [name]. *)
Definition names_differ (rows : list Row) : Prop :=
  forall (i j : nat) (r1 r2 : Row),
    i <> j -> rows !! i = Some r1 -> rows !! j = Some r2 ->
    cell r1 "name" <> cell r2 "name".

(** Example rows: a source with a name, and one inserted without. *)
Definition named_source (id : Z) (name : string) : Row :=
  mkRow (Some id) (Some name) None None None None.

Definition unnamed_source (id : Z) : Row :=
  mkRow (Some id) None None None None None.

Definition example_schema : Schema :=
  {["projects" := mkTable [mkColumn "id" Integer false; mkColumn "name" String_ true]
                          [PrimaryKeyConstraint ["id"]]]}.

(** What the declared columns and constraints of [marketplace_sources]
    demand of a table content: every row fits the column declarations, no
    two rows share an [id], and no two rows share a [name] that is not
    NULL. *)
Definition satisfies_constraints (rows : list Row) : Prop :=
  (forall (r : Row) (c : Column),
     r ∈ rows -> In c (columns marketplace_sources) -> column_ok r c = true)
  /\ (forall (i j : nat) (r1 r2 : Row),
        i <> j -> rows !! i = Some r1 -> rows !! j = Some r2 ->
        cell r1 "id" <> cell r2 "id")
  /\ (forall (i j : nat) (r1 r2 : Row),
        i <> j -> rows !! i = Some r1 -> rows !! j = Some r2 ->
        cell r1 "name" <> NULL -> cell r1 "name" <> cell r2 "name").

(** A schema in which an earlier change left a table of the same name
    with another definition. *)
Definition legacy_schema : Schema :=
  <["marketplace_sources" := mkTable [mkColumn "id" Integer false]
                                     [PrimaryKeyConstraint ["id"]]]> example_schema.

End Migration.

(** * Frontend-spec schemas ([frontend_spec.py]) *)

Module FrontendSpec.

(** [class ProjectMembershipFeatureFlag(str, enum.Enum)] *)
Inductive ProjectMembershipFeatureFlag := enabled | disabled.

(** [class AuthenticationFeatureFlag(str, enum.Enum)] *)
Inductive AuthenticationFeatureFlag := none | basic | bearer | iguazio.

Definition ProjectMembershipFeatureFlag_value (m : ProjectMembershipFeatureFlag) : string :=
  match m with
  | enabled => "enabled"
  | disabled => "disabled"
  end.

Definition AuthenticationFeatureFlag_value (m : AuthenticationFeatureFlag) : string :=
  match m with
  | none => "none"
  | basic => "basic"
  | bearer => "bearer"
  | iguazio => "iguazio"
  end.

(** Members in definition order, as iterating the enum class gives them. *)
Definition ProjectMembershipFeatureFlag_members : list ProjectMembershipFeatureFlag :=
  [enabled; disabled].
Definition AuthenticationFeatureFlag_members : list AuthenticationFeatureFlag :=
  [none; basic; bearer; iguazio].

(** [class FeatureFlags(pydantic.BaseModel)] *)
Record FeatureFlags := mkFeatureFlags {
  project_membership : ProjectMembershipFeatureFlag;
  authentication : AuthenticationFeatureFlag
}.

(** [class ResourceSpec(pydantic.BaseModel)] *)
Record ResourceSpec := mkResourceSpec {
  cpu : option string;
  memory : option string;
  gpu : option string
}.

(** [ResourceSpec()] : every field is Optional and defaults to None. *)
Definition ResourceSpec_default : ResourceSpec := mkResourceSpec None None None.

(** [class Resources(pydantic.BaseModel)] *)
Record Resources := mkResources {
  requests : ResourceSpec;
  limits : ResourceSpec
}.

Definition Resources_default : Resources :=
  mkResources ResourceSpec_default ResourceSpec_default.

(** [class FrontendSpec(pydantic.BaseModel)] *)
Record FrontendSpec := mkFrontendSpec {
  jobs_dashboard_url : option string;
  abortable_function_kinds : list string;
  feature_flags : FeatureFlags;
  default_function_priority_class_name : option string;
  valid_function_priority_class_names : list string;
  default_function_image_by_kind : gmap string string;
  function_deployment_target_image_template : option string;
  function_deployment_target_image_name_prefix_template : string;
  function_deployment_target_image_registries_to_enforce_prefix : list string;
  function_deployment_mlrun_command : option string;
  auto_mount_type : option string;
  auto_mount_params : gmap string string;
  default_artifact_path : string;
  default_function_pod_resources : Resources
}.

(** The values a client can put under a key of the input object. *)
Inductive PyVal :=
| PyNone
| PyBool (b : bool)
| PyInt (z : Z)
| PyStr (s : string).

(** [EnumClass(v)]: the member whose value equals [v]. The members are
    strings, so only a string can equal one. *)
Definition enum_call {E : Type} (members : list E) (value_of : E -> string)
    (v : PyVal) : option E :=
  match v with
  | PyStr s => List.find (fun m => String.eqb (value_of m) s) members
  | _ => None
  end.

(** The error entries pydantic reports for these fields. *)
Inductive ErrorType :=
| value_error_missing
| type_error_none_not_allowed
| type_error_enum (permitted : list string).

Record ErrorItem := mkErrorItem {
  loc : string;
  err : ErrorType
}.

(** Validation of one required enum field: a missing key and None are
    refused before the enum validator runs; the enum validator calls the
    enum class on the value. *)
Definition validate_enum_field {E : Type} (members : list E)
    (value_of : E -> string) (name : string) (data : gmap string PyVal)
  : result ErrorItem E :=
  match data !! name with
  | None => Raise (mkErrorItem name value_error_missing)
  | Some PyNone => Raise (mkErrorItem name type_error_none_not_allowed)
  | Some v =>
    match enum_call members value_of v with
    | Some m => Ok m
    | None => Raise (mkErrorItem name (type_error_enum (map value_of members)))
    end
  end.

Definition errors_of {A : Type} (r : result ErrorItem A) : list ErrorItem :=
  match r with Ok _ => [] | Raise e => [e] end.

(** Construction of [FeatureFlags] from an input object: every field is
    validated, in declaration order, and the errors of all of them are
    raised together as one ValidationError. Keys that name no field are
    ignored. *)
Definition FeatureFlags_validate (data : gmap string PyVal)
  : result (list ErrorItem) FeatureFlags :=
  let pm := validate_enum_field ProjectMembershipFeatureFlag_members
              ProjectMembershipFeatureFlag_value "project_membership" data in
  let au := validate_enum_field AuthenticationFeatureFlag_members
              AuthenticationFeatureFlag_value "authentication" data in
  match pm, au with
  | Ok p, Ok a => Ok (mkFeatureFlags p a)
  | _, _ => Raise (errors_of pm ++ errors_of au)
  end.

(** [BaseModel.dict()] of a [FeatureFlags] object: field name to value. A
    member of a str enum is a string, the member's value. *)
Definition FeatureFlags_dict (ff : FeatureFlags) : gmap string PyVal :=
  <["project_membership" :=
      PyStr (ProjectMembershipFeatureFlag_value (project_membership ff))]>
    {["authentication" :=
        PyStr (AuthenticationFeatureFlag_value (authentication ff))]}.

(** The most decimal digits CPython lets an int have when it is turned
    into a string ([sys.get_int_max_str_digits()], 4300 unless configured
    otherwise); [str(v)] of a longer int raises ValueError. *)
Definition int_max_str_digits : Z := 4300.

(** [str(v)] of an int [v]: its decimal string, if it is not too long. *)
Definition str_of_int (z : Z) : option string :=
  if Z.abs z <? 10 ^ int_max_str_digits then Some (pretty z) else None.

(** pydantic's [str_validator]: a string is kept, a number is turned into
    [str(v)] (a bool is an int: "True" or "False"); None is no string. *)
Definition str_validator (v : PyVal) : option string :=
  match v with
  | PyStr s => Some s
  | PyInt z => str_of_int z
  | PyBool b => Some (if b then "True" else "False")
  | PyNone => None
  end.

(** Validation of a field annotated [typing.Optional[str]] and given no
    default: a missing key and None both give None; otherwise
    [str_validator] runs, and its failure is an error of the field. *)
Definition validate_optional_str (name : string) (data : gmap string PyVal)
  : result string (option string) :=
  match data !! name with
  | None => Ok None
  | Some PyNone => Ok None
  | Some v =>
    match str_validator v with
    | Some s => Ok (Some s)
    | None => Raise name
    end
  end.

Definition failed {A : Type} (r : result string A) : list string :=
  match r with Ok _ => [] | Raise name => [name] end.

(** Construction of [ResourceSpec] from an input object of scalars: the
    three fields are validated in declaration order, and the fields that
    fail are reported together. *)
Definition ResourceSpec_validate (data : gmap string PyVal)
  : result (list string) ResourceSpec :=
  let c := validate_optional_str "cpu" data in
  let m := validate_optional_str "memory" data in
  let g := validate_optional_str "gpu" data in
  match c, m, g with
  | Ok c', Ok m', Ok g' => Ok (mkResourceSpec c' m' g')
  | _, _, _ => Raise (failed c ++ failed m ++ failed g)
  end.

(** [getattr(r, name)] for the three fields. *)
Definition ResourceSpec_field (name : string) (r : ResourceSpec) : option string :=
  if String.eqb name "cpu" then cpu r
  else if String.eqb name "memory" then memory r
  else if String.eqb name "gpu" then gpu r
  else None.

(** [BaseModel.dict()] of a [ResourceSpec]: every field is there, an unset
    one with None. *)
Definition ResourceSpec_dict (r : ResourceSpec) : gmap string PyVal :=
  <["cpu" := from_option PyStr PyNone (cpu r)]>
    (<["memory" := from_option PyStr PyNone (memory r)]>
       {["gpu" := from_option PyStr PyNone (gpu r)]}).

End FrontendSpec.

(** * The TSDB connector ([model_monitoring/db/tsdb/base.py]) *)

Module TSDB.

(** ** Types of [mlrun.common.schemas.model_monitoring] and [mlrun.errors]

    [base.py] imports them; their modules are not among the sources. *)

(** Modelled from the spec: [mm_schemas.WriterEventKind], the kind of an
    event of the monitoring writer. The spec gives the default kind as
    "result"; the docstring of [write_application_event] speaks of writing
    "a single application or metric", hence the second member. *)
Inductive WriterEventKind := METRIC | RESULT.

Definition WriterEventKind_value (k : WriterEventKind) : string :=
  match k with
  | METRIC => "metric"
  | RESULT => "result"
  end.

(** The two errors the docstrings name: [mlrun.errors.MLRunRuntimeError]
    and [MLRunNotFoundError]. *)
Inductive MLRunError :=
| MLRunRuntimeError (msg : string)
| MLRunNotFoundError (msg : string).


(** [type: typing.Literal["metrics", "results"]] *)
Inductive DataType := metrics | results.

(** Modelled from the spec: [mm_schemas.ModelEndpointMonitoringMetric], "a
    named metric or result tied to a model endpoint": the application that
    computes it, its name, and whether it is a metric or a result. *)
Record ModelEndpointMonitoringMetric := mkMetric {
  app : string;
  name : string;
  type : DataType
}.

#[global] Instance DataType_eq_dec : EqDecision DataType.
Proof. solve_decision. Defined.
#[global] Instance Metric_eq_dec : EqDecision ModelEndpointMonitoringMetric.
Proof. solve_decision. Defined.

(** The default of the parameter
    [kind: mm_schemas.WriterEventKind = mm_schemas.WriterEventKind.RESULT];
    [None] is a call that leaves the argument out. *)
Definition kind_or_default (kind : option WriterEventKind) : WriterEventKind :=
  default RESULT kind.

(** ** The methods of the base class that have a body

    Each body is a docstring or [pass]: the call raises nothing, returns
    None and changes nothing. *)
Module Base.
Section Base.
Context {Self Graph Event R : Type}.

Definition apply_monitoring_stream_steps (self : Self) (graph : Graph)
  : Self * Graph * unit :=
  (self, graph, tt).

Definition write_application_event (self : Self) (event : Event)
    (kind : option WriterEventKind) : result MLRunError (Self * unit) :=
  let kind := kind_or_default kind in
  Ok (self, tt).

Definition delete_tsdb_resources (self : Self) : Self * unit := (self, tt).

Definition get_model_endpoint_real_time_metrics (self : Self)
    (endpoint_id : string) (metrics : list string) (start end_ : string)
  : result MLRunError (option R) :=
  Ok None.

Definition create_tables (self : Self) : Self * unit := (self, tt).

End Base.
End Base.

(** ** Time expressions

    The docstring of [get_model_endpoint_real_time_metrics] gives what
    [start] and [end] can be: "a string containing an RFC 3339 time, a Unix
    timestamp in milliseconds, a relative time ('now' or 'now-[0-9]+[mhd]',
    where m = minutes, h = hours, 'd' = days, and 's' = seconds), or 0 for
    the earliest time". *)

Definition is_digit (c : ascii) : bool :=
  (48 <=? nat_of_ascii c)%nat && (nat_of_ascii c <=? 57)%nat.

Definition lit (c : ascii) : ascii -> bool := Ascii.eqb c.

Definition one_of (cs : list ascii) (c : ascii) : bool := existsb (Ascii.eqb c) cs.

(** Consume one character per class of [p] from the front of [s]. *)
Fixpoint eat (p : list (ascii -> bool)) (s : list ascii) : option (list ascii) :=
  match p, s with
  | [], _ => Some s
  | f :: p', c :: s' => if f c then eat p' s' else None
  | _ :: _, [] => None
  end.

Fixpoint drop_digits (s : list ascii) : list ascii :=
  match s with
  | c :: s' => if is_digit c then drop_digits s' else s
  | [] => []
  end.

(** [[0-9]+] followed by whatever is left. *)
Definition eat_digits1 (s : list ascii) : option (list ascii) :=
  match s with
  | c :: s' => if is_digit c then Some (drop_digits s') else None
  | [] => None
  end.

(** RFC 3339 [date-time]: [full-date "T" full-time], the fraction of a
    second optional, the offset "Z" or a numeric one. *)
Definition rfc3339_prefix : list (ascii -> bool) :=
  [ is_digit; is_digit; is_digit; is_digit; lit "-"; is_digit; is_digit;
    lit "-"; is_digit; is_digit; one_of ["T"; "t"; " "]%char;
    is_digit; is_digit; lit ":"; is_digit; is_digit; lit ":";
    is_digit; is_digit ]%char.

Definition eat_secfrac (s : list ascii) : option (list ascii) :=
  match s with
  | "."%char :: s' => eat_digits1 s'
  | _ => Some s
  end.

Definition is_time_offset (s : list ascii) : bool :=
  match s with
  | [c] => one_of ["Z"; "z"]%char c
  | sign :: s' =>
    one_of ["+"; "-"]%char sign
    && bool_decide (eat [is_digit; is_digit; lit ":"; is_digit; is_digit]%char s' = Some [])
  | [] => false
  end.

Definition is_rfc3339 (s : string) : bool :=
  match eat rfc3339_prefix (list_ascii_of_string s) with
  | Some rest =>
    match eat_secfrac rest with
    | Some rest' => is_time_offset rest'
    | None => false
    end
  | None => false
  end.

(** A Unix timestamp in milliseconds: [[0-9]+]. *)
Definition is_unix_millis (s : string) : bool :=
  bool_decide (eat_digits1 (list_ascii_of_string s) = Some []).

(** ['now-[0-9]+[units]'], matched against the whole string. *)
Definition is_now_minus (units : list ascii) (s : string) : bool :=
  match eat [lit "n"; lit "o"; lit "w"; lit "-"]%char (list_ascii_of_string s) with
  | Some rest =>
    match eat_digits1 rest with
    | Some [u] => one_of units u
    | _ => false
    end
  | None => false
  end.

(** The character class of the pattern the docstring gives: [[mhd]]. *)
Definition pattern_units : list ascii := ["m"; "h"; "d"]%char.

(** The units the sentence after the pattern explains: m, h, d and s. *)
Definition legend_units : list ascii := ["m"; "h"; "d"; "s"]%char.

Definition is_time_expression (units : list ascii) (s : string) : bool :=
  is_rfc3339 s
  || is_unix_millis s
  || String.eqb s "now"
  || is_now_minus units s
  || String.eqb s "0".

(** The time expressions of the docstring, its pattern read as written. *)
Definition documented_time_expression : string -> bool :=
  is_time_expression pattern_units.

(** The time expressions as the specification words them: "an absolute
    timestamp, a relative expression ("now", "now-<N><unit>" with unit in
    {m,h,d,s}), or the sentinel 0". *)
Definition spec_time_expression (s : string) : bool :=
  (is_rfc3339 s || is_unix_millis s)
  || (String.eqb s "now" || is_now_minus ["m"; "h"; "d"; "s"]%char s)
  || String.eqb s "0".


Section Connector.

(** The numeric values of the series are floats; the connector stores and
    returns them and never computes with them. *)
Context {value : Type}.

(** Modelled from the spec: the three value types of mm_schemas the read
    methods return, "with a variant distinguishing has-data from no-data":
    [ModelEndpointMonitoringMetricValues] (timestamp, value),
    [ModelEndpointMonitoringResultValues] (timestamp, value, status) and
    [ModelEndpointMonitoringMetricNoData]. Each names its descriptor. *)
Inductive MonitoringData :=
| MetricValues (m : ModelEndpointMonitoringMetric) (values : list (Z * value))
| ResultValues (m : ModelEndpointMonitoringMetric) (values : list (Z * value * string))
| MetricNoData (m : ModelEndpointMonitoringMetric).

Definition descriptor (d : MonitoringData) : ModelEndpointMonitoringMetric :=
  match d with
  | MetricValues m _ => m
  | ResultValues m _ => m
  | MetricNoData m => m
  end.

(** How a returned value presents itself to the caller. *)
Inductive Shape := HasData | NoDataMarker | EmptyCollection | BareNull.

Definition shape (d : MonitoringData) : Shape :=
  match d with
  | MetricValues _ [] => EmptyCollection
  | ResultValues _ [] => EmptyCollection
  | MetricValues _ _ => HasData
  | ResultValues _ _ => HasData
  | MetricNoData _ => NoDataMarker
  end.

(** [typing.Optional[...]]: None or the object. *)
Definition shape_optional {A : Type} (o : option A) : Shape :=
  match o with
  | None => BareNull
  | Some _ => HasData
  end.

(** Modelled from the spec: one stored sample of the backend, whose
    format the sources do not give: the endpoint and time it belongs to,
    the application and name of the metric or result, its value, the status
    of a result, and the remaining named columns (kind, extra data, ...). *)
Record Sample := mkSample {
  endpoint_id : string;
  time : Z;
  application_name : string;
  sample_name : string;
  sample_value : value;
  status : string;
  extra : list (string * string)
}.

(** [pd.DataFrame]: rows with named columns. *)
Abbreviation DataFrame := (list Sample).

(** ** The interface

    [class TSDBConnector(ABC)]: the four [@abstractmethod]s, which every
    backend has to define, typed as their annotations say. [B] is the
    backend's state; times are datetimes, as milliseconds. *)
Class TSDBConnector (B : Type) := {
  get_records :
    B -> string -> Z -> Z -> option (list string) -> string ->
    result MLRunError DataFrame;
  read_metrics_data :
    B -> string -> Z -> Z -> list ModelEndpointMonitoringMetric -> DataType ->
    list MonitoringData;
  read_predictions :
    B -> string -> Z -> Z -> option string -> MonitoringData;
  read_prediction_metric_for_endpoint_if_exists :
    B -> string -> option ModelEndpointMonitoringMetric
}.

(** ** A backend

    The source has no backend (the two the docstrings mention, V3IO and
    TDEngine, live in other modules). The one below keeps its tables in
    memory and is written from the contract: the docstrings of [base.py]
    and the specification of the connector's operations. *)

(** The grammar of [filter_query] "depends on the TSDB connector type", and
    so does the meaning of an aggregation window: both are left to the
    backend. *)
Variable filter_matches : string -> Sample -> bool.
Variable aggregate : string -> list (Z * value) -> list (Z * value).

(** Modelled from the spec: the state of a backend, "the backend's
    persisted data" of one project, as its logical tables by name. *)
Record InMemoryTSDB := mkInMemoryTSDB {
  project : string;
  tables : gmap string (list Sample)
}.

(** [__init__(self, project)] *)
Definition InMemory_init (project : string) : InMemoryTSDB := mkInMemoryTSDB project ∅.

Definition in_range (start end_ : Z) (s : Sample) : bool :=
  (start <=? time s) && (time s <=? end_).

(** [columns: Optional[list[str]] = None]: None keeps every column. *)
Definition select_columns (columns : option (list string)) (s : Sample) : Sample :=
  match columns with
  | None => s
  | Some cols =>
    mkSample (endpoint_id s) (time s) (application_name s) (sample_name s)
      (sample_value s) (status s)
      (List.filter (fun kv => bool_decide (fst kv ∈ cols)) (extra s))
  end.

(** [filter_query] defaults to the empty string, which filters nothing. *)
Definition query_ok (filter_query : string) (s : Sample) : bool :=
  match filter_query with
  | EmptyString => true
  | _ => filter_matches filter_query s
  end.

(** Modelled from the spec: [get_records] "returns a tabular result for
    one logical table, restricted to the optional column subset and an
    optional backend-specific filter expression. Fails with a not-found
    error if the table does not exist." *)
Definition InMemory_get_records (self : InMemoryTSDB) (table : string)
    (start end_ : Z) (columns : option (list string)) (filter_query : string)
  : result MLRunError DataFrame :=
  match tables self !! table with
  | None => Raise (MLRunNotFoundError table)
  | Some rows =>
    Ok (map (select_columns columns)
          (List.filter (fun s => in_range start end_ s && query_ok filter_query s) rows))
  end.

Definition table_of_type (t : DataType) : string :=
  match t with
  | metrics => "metrics"
  | results => "app_results"
  end.

Definition rows_of (self : InMemoryTSDB) (table : string) : list Sample :=
  default [] (tables self !! table).

(** The samples of one descriptor for an endpoint in a time range. *)
Definition matching (endpoint : string) (start end_ : Z)
    (m : ModelEndpointMonitoringMetric) (rows : list Sample) : list Sample :=
  List.filter
    (fun s => String.eqb (endpoint_id s) endpoint
              && in_range start end_ s
              && String.eqb (application_name s) (app m)
              && String.eqb (sample_name s) (name m))
    rows.

(** Modelled from the spec: one descriptor resolved "to either its full
    value series or an explicit no-data marker"; [type] selects the value
    shape, "each has a different value-shape". *)
Definition resolve (t : DataType) (m : ModelEndpointMonitoringMetric)
    (found : list Sample) : MonitoringData :=
  match found with
  | [] => MetricNoData m
  | _ :: _ =>
    match t with
    | metrics => MetricValues m (map (fun s => (time s, sample_value s)) found)
    | results => ResultValues m (map (fun s => (time s, sample_value s, status s)) found)
    end
  end.

(** Modelled from the spec: [read_metrics_data] "for a fixed endpoint and
    explicit time range, resolves each requested metric/result descriptor
    to either its full value series or an explicit no-data marker,
    preserving input order". *)
Definition InMemory_read_metrics_data (self : InMemoryTSDB) (endpoint : string)
    (start end_ : Z) (requested : list ModelEndpointMonitoringMetric)
    (t : DataType) : list MonitoringData :=
  map (fun m => resolve t m (matching endpoint start end_ m (rows_of self (table_of_type t))))
      requested.

(** Modelled from the spec: the descriptor of the "invocations" metric of
    [read_predictions]; the application it is filed under is the model's
    choice. *)
Definition invocations_metric : ModelEndpointMonitoringMetric :=
  mkMetric "mlrun-infra" "invocations" metrics.

Definition predictions_of (endpoint : string) (rows : list Sample) : list Sample :=
  List.filter (fun s => String.eqb (endpoint_id s) endpoint) rows.

(** Modelled from the spec: [read_predictions] "returns the invocations
    time series for the endpoint, optionally pre-aggregated into fixed
    windows; returns a no-data marker when the endpoint has no recorded
    invocations in range". *)
Definition InMemory_read_predictions (self : InMemoryTSDB) (endpoint : string)
    (start end_ : Z) (aggregation_window : option string) : MonitoringData :=
  match List.filter (in_range start end_)
          (predictions_of endpoint (rows_of self "predictions")) with
  | [] => MetricNoData invocations_metric
  | found =>
    let series := map (fun s => (time s, sample_value s)) found in
    MetricValues invocations_metric
      (match aggregation_window with
       | None => series
       | Some w => aggregate w series
       end)
  end.

(** Modelled from the spec: [read_prediction_metric_for_endpoint_if_exists]
    "returns the invocations metric descriptor for the endpoint, or an
    absent value if it has never been recorded"; in the docstring, "None if
    the invocations metric does not exist". *)
Definition InMemory_read_prediction_metric_for_endpoint_if_exists
    (self : InMemoryTSDB) (endpoint : string)
  : option ModelEndpointMonitoringMetric :=
  match predictions_of endpoint (rows_of self "predictions") with
  | [] => None
  | _ :: _ => Some invocations_metric
  end.

#[export] Instance InMemory_connector : TSDBConnector InMemoryTSDB := {
  get_records := InMemory_get_records;
  read_metrics_data := InMemory_read_metrics_data;
  read_predictions := InMemory_read_predictions;
  read_prediction_metric_for_endpoint_if_exists :=
    InMemory_read_prediction_metric_for_endpoint_if_exists
}.



(** An endpoint has no matching records in a range when no table holds a
    sample of it with a time in the range. *)
Definition no_records (self : InMemoryTSDB) (endpoint : string)
    (start end_ : Z) : Prop :=
  forall (table : string) (rows : list Sample) (s : Sample),
    tables self !! table = Some rows -> s ∈ rows ->
    endpoint_id s = endpoint -> in_range start end_ s = false.

End Connector.

Arguments MonitoringData : clear implicits.
Arguments Sample : clear implicits.
Arguments InMemoryTSDB : clear implicits.
Arguments TSDBConnector : clear implicits.

(** ** Example data: two endpoints of one project

    [ep-1] has one metric sample, at time 500; [ep-2] has a metric sample
    and a prediction, both before time 100. *)

Definition hellinger : ModelEndpointMonitoringMetric :=
  mkMetric "drift-app" "hellinger" metrics.
Definition kld : ModelEndpointMonitoringMetric :=
  mkMetric "drift-app" "kld" metrics.

Definition example_tsdb : InMemoryTSDB Z :=
  mkInMemoryTSDB "demo"
    (<["metrics" := [ mkSample "ep-1" 500 "drift-app" "hellinger" 3 EmptyString [];
                      mkSample "ep-2" 50 "drift-app" "hellinger" 4 EmptyString [] ]]>
     (<["predictions" := [ mkSample "ep-2" 60 "mlrun-infra" "invocations" 1 EmptyString [] ]]>
      (<["app_results" := []]> ∅))).

(** [[0-9]*]: every character is a decimal digit. *)
Fixpoint all_digits (s : string) : bool :=
  match s with
  | EmptyString => true
  | String c s' => is_digit c && all_digits s'
  end.

End TSDB.

(** * Facts about the TSDB connector *)

Module TSDBFacts.
Import TSDB.

Section Facts.
Context {value : Type}.
Variable filter_matches : string -> Sample value -> bool.
Variable aggregate : string -> list (Z * value) -> list (Z * value).
Implicit Types (self : InMemoryTSDB value) (s event : Sample value).

Lemma filter_none {A : Type} (f : A -> bool) (l : list A) :
  (forall x, x ∈ l -> f x = false) -> List.filter f l = [].
Proof.
  induction l as [|a l IH]; intros H; simpl; [reflexivity|].
  rewrite (H a) by apply list_elem_of_here.
  apply IH. intros x Hx. apply H. by apply list_elem_of_further.
Qed.

Lemma rows_of_elem self (table : string) s :
  s ∈ rows_of self table ->
  exists rows, tables self !! table = Some rows /\ s ∈ rows.
Proof.
  unfold rows_of. destruct (tables self !! table) as [rows|] eqn:E; simpl.
  - intros Hs. by exists rows.
  - intros Hs. by apply elem_of_nil in Hs.
Qed.

Lemma matching_none self (endpoint : string) (start end_ : Z)
    (m : ModelEndpointMonitoringMetric) (table : string) :
  no_records self endpoint start end_ ->
  matching endpoint start end_ m (rows_of self table) = [].
Proof.
  intros Hno. apply filter_none. intros s Hs.
  destruct (rows_of_elem _ _ _ Hs) as (rows & Ht & Hin).
  destruct (String.eqb (endpoint_id s) endpoint) eqn:E; [|reflexivity].
  apply String.eqb_eq in E.
  by rewrite (Hno table rows s Ht Hin E).
Qed.

Lemma descriptor_resolve (t : DataType) (m : ModelEndpointMonitoringMetric)
    (found : list (Sample value)) :
  descriptor (resolve t m found) = m.
Proof. destruct found, t; reflexivity. Qed.

Lemma shape_resolve (t : DataType) (m : ModelEndpointMonitoringMetric)
    (found : list (Sample value)) :
  shape (resolve t m found) = match found with [] => NoDataMarker | _ => HasData end.
Proof. destruct found, t; reflexivity. Qed.

(** Whatever the backend, [read_prediction_metric_for_endpoint_if_exists]
    cannot return a no-data marker: its result is None or a descriptor. *)
Lemma optional_metric_never_marker {B : Type} `{TSDBConnector value B}
    (self : B) (endpoint : string) :
  shape_optional (read_prediction_metric_for_endpoint_if_exists self endpoint)
  <> NoDataMarker.
Proof. by destruct (read_prediction_metric_for_endpoint_if_exists self endpoint). Qed.

Lemma filter_nil_iff {A : Type} (f : A -> bool) (l : list A) :
  List.filter f l = [] <-> forall x, x ∈ l -> f x = false.
Proof.
  split; [|apply filter_none].
  induction l as [|a l IH]; simpl; intros H x Hx; [by apply elem_of_nil in Hx|].
  destruct (f a) eqn:Ea; [discriminate|].
  apply elem_of_cons in Hx as [->|Hx]; [exact Ea|by apply IH].
Qed.

Lemma resolve_no_data (t : DataType) (m : ModelEndpointMonitoringMetric)
    (found : list (Sample value)) :
  resolve t m found = MetricNoData m <-> found = [].
Proof. destruct found, t; simpl; split; (done || discriminate). Qed.

Lemma matching_nil_iff (endpoint : string) (start end_ : Z)
    (m : ModelEndpointMonitoringMetric) (rows : list (Sample value)) :
  matching endpoint start end_ m rows = [] <->
  forall s, s ∈ rows ->
    ~ (endpoint_id s = endpoint /\ in_range start end_ s = true
       /\ application_name s = app m /\ sample_name s = name m).
Proof.
  unfold matching. rewrite filter_nil_iff. split; intros H s Hs.
  - intros (He & Hr & Ha & Hn). specialize (H s Hs).
    rewrite He, Hr, Ha, Hn, !String.eqb_refl in H. discriminate H.
  - destruct (String.eqb_spec (endpoint_id s) endpoint) as [He|]; [|reflexivity].
    destruct (in_range start end_ s) eqn:Hr; [|reflexivity].
    destruct (String.eqb_spec (application_name s) (app m)) as [Ha|]; [|reflexivity].
    destruct (String.eqb_spec (sample_name s) (name m)) as [Hn|]; [|reflexivity].
    by destruct (H s Hs).
Qed.

Lemma read_metrics_data_lookup self (endpoint : string) (start end_ : Z)
    (requested : list ModelEndpointMonitoringMetric) (t : DataType)
    (i : nat) (m : ModelEndpointMonitoringMetric) :
  requested !! i = Some m ->
  InMemory_read_metrics_data self endpoint start end_ requested t !! i
  = Some (resolve t m (matching endpoint start end_ m (rows_of self (table_of_type t)))).
Proof.
  unfold InMemory_read_metrics_data. revert i.
  induction requested as [|m' ms IH]; intros [|i] H; simpl in *; try discriminate.
  - by injection H as ->.
  - by apply IH.
Qed.

Lemma predictions_of_nil_iff (endpoint : string) (rows : list (Sample value)) :
  predictions_of endpoint rows = [] <->
  forall s, s ∈ rows -> endpoint_id s <> endpoint.
Proof.
  unfold predictions_of. rewrite filter_nil_iff. split; intros H s Hs.
  - apply String.eqb_neq. by apply H.
  - apply String.eqb_neq. by apply H.
Qed.

(** C1, as amended. When the endpoint has no matching records in the
    range, [read_metrics_data] returns a no-data marker for every requested
    descriptor and [read_predictions] returns the no-data marker of the
    invocations metric. More exactly, the entry of a requested descriptor
    is its no-data marker exactly when no sample of the endpoint in the
    range belongs to that descriptor, and [read_predictions] returns the
    marker exactly when the endpoint has no prediction in the range.
    [read_prediction_metric_for_endpoint_if_exists], which takes no range,
    returns None exactly when the endpoint has no prediction at all, and
    the descriptor of the invocations metric exactly when it has one. *)
Theorem no_records_no_data_marker self (endpoint : string)
    (start end_ : Z) (requested : list ModelEndpointMonitoringMetric)
    (t : DataType) (aggregation_window : option string) :
  (no_records self endpoint start end_ ->
   InMemory_read_metrics_data self endpoint start end_ requested t
     = map MetricNoData requested
   /\ InMemory_read_predictions aggregate self endpoint start end_ aggregation_window
     = MetricNoData invocations_metric)
  /\ (forall (i : nat) (m : ModelEndpointMonitoringMetric),
        requested !! i = Some m ->
        exists d,
          InMemory_read_metrics_data self endpoint start end_ requested t !! i = Some d
          /\ descriptor d = m
          /\ (d = MetricNoData m <->
              forall s, s ∈ rows_of self (table_of_type t) ->
                ~ (endpoint_id s = endpoint /\ in_range start end_ s = true
                   /\ application_name s = app m /\ sample_name s = name m)))
  /\ (InMemory_read_predictions aggregate self endpoint start end_ aggregation_window
        = MetricNoData invocations_metric
      <-> forall s, s ∈ rows_of self "predictions" ->
            endpoint_id s = endpoint -> in_range start end_ s = false)
  /\ (InMemory_read_prediction_metric_for_endpoint_if_exists self endpoint = None
      <-> forall s, s ∈ rows_of self "predictions" -> endpoint_id s <> endpoint)
  /\ (InMemory_read_prediction_metric_for_endpoint_if_exists self endpoint
        = Some invocations_metric
      <-> exists s, s ∈ rows_of self "predictions" /\ endpoint_id s = endpoint).
Proof.
  assert (Hpred :
            InMemory_read_predictions aggregate self endpoint start end_ aggregation_window
              = MetricNoData invocations_metric
            <-> forall s, s ∈ rows_of self "predictions" ->
                  endpoint_id s = endpoint -> in_range start end_ s = false).
  { unfold InMemory_read_predictions.
    destruct (List.filter (in_range start end_)
                (predictions_of endpoint (rows_of self "predictions"))) as [|s0 l] eqn:E.
    - split; [|done]. intros _ s Hs He.
      apply (proj1 (filter_nil_iff _ _) E). unfold predictions_of.
      apply list_elem_of_In, filter_In. split; [by apply list_elem_of_In|].
      by apply String.eqb_eq.
    - split; [discriminate|]. intros H. exfalso.
      assert (Hs0 : s0 ∈ List.filter (in_range start end_)
                      (predictions_of endpoint (rows_of self "predictions")))
        by (rewrite E; apply list_elem_of_here).
      apply list_elem_of_In, filter_In in Hs0 as [Hs0 Hr].
      unfold predictions_of in Hs0. apply filter_In in Hs0 as [Hs0 He].
      apply list_elem_of_In in Hs0. apply String.eqb_eq in He.
      rewrite (H s0 Hs0 He) in Hr. discriminate Hr. }
  split; [|split; [|split; [exact Hpred|split]]].
  - intros Hno. split.
    + unfold InMemory_read_metrics_data. apply map_ext. intros m.
      by rewrite matching_none.
    + apply Hpred. intros s Hs He.
      apply rows_of_elem in Hs as (rows & Ht & Hin). exact (Hno _ rows s Ht Hin He).
  - intros i m Hi. eexists. split; [by apply read_metrics_data_lookup|].
    split; [apply descriptor_resolve|].
    by rewrite resolve_no_data, matching_nil_iff.
  - unfold InMemory_read_prediction_metric_for_endpoint_if_exists.
    rewrite <- predictions_of_nil_iff.
    destruct (predictions_of endpoint (rows_of self "predictions")); split;
      (done || discriminate).
  - unfold InMemory_read_prediction_metric_for_endpoint_if_exists.
    destruct (predictions_of endpoint (rows_of self "predictions")) as [|s0 l] eqn:E.
    + split; [discriminate|]. intros (s & Hs & He). exfalso.
      by apply (proj1 (predictions_of_nil_iff _ _) E s Hs).
    + split; [intros _|done]. exists s0.
      assert (Hs0 : s0 ∈ predictions_of endpoint (rows_of self "predictions"))
        by (rewrite E; apply list_elem_of_here).
      unfold predictions_of in Hs0. apply list_elem_of_In, filter_In in Hs0 as [Hs0 He].
      split; [by apply list_elem_of_In|by apply String.eqb_eq].
Qed.

(** C2. The list [read_metrics_data] returns has one entry per requested
    descriptor, in the order of the request: the descriptors of the entries
    are the requested list itself, and every entry is a value series or a
    no-data marker. *)
Theorem read_metrics_data_preserves_order self
    (endpoint : string) (start end_ : Z)
    (requested : list ModelEndpointMonitoringMetric) (t : DataType) :
  List.length (InMemory_read_metrics_data self endpoint start end_ requested t)
    = List.length requested
  /\ map descriptor (InMemory_read_metrics_data self endpoint start end_ requested t)
    = requested
  /\ Forall (fun d => shape d = HasData \/ shape d = NoDataMarker)
       (InMemory_read_metrics_data self endpoint start end_ requested t).
Proof.
  unfold InMemory_read_metrics_data. split; [|split].
  - apply length_map.
  - induction requested as [|m ms IH]; simpl; [reflexivity|].
    by rewrite descriptor_resolve, IH.
  - apply Forall_map, Forall_forall. intros m _. simpl.
    rewrite shape_resolve. destruct (matching _ _ _ _ _); auto.
Qed.


(** C5, as amended. A call of [write_application_event] that leaves
    [kind] out runs with RESULT, whose value is "result", and a call that
    gives a kind runs with that kind. The method of the base class writes
    nothing: with or without [kind], it raises nothing, leaves the
    connector as it is and returns None. *)
Theorem write_application_event_default_kind {Self Event : Type}
    (self : Self) (event : Event) (kind : option WriterEventKind) :
  kind_or_default None = RESULT
  /\ WriterEventKind_value (kind_or_default None) = "result"
  /\ (forall k, kind_or_default (Some k) = k)
  /\ Base.write_application_event self event kind = Ok (self, tt).
Proof. repeat split. Qed.

(** C4, as amended. [get_model_endpoint_real_time_metrics] of the base
    class accepts every [start] and [end], time expression or not: it
    parses nothing, raises nothing and returns None. *)
Theorem real_time_metrics_accepts_every_string {Self R : Type}
    (self : Self) (endpoint : string) (names : list string)
    (start end_ : string) :
  Base.get_model_endpoint_real_time_metrics (R := R) self endpoint names start end_
    = Ok None
  /\ is_ok (Base.get_model_endpoint_real_time_metrics (R := R)
              self endpoint names start end_)
     = true.
Proof. split; reflexivity. Qed.

End Facts.

Lemma example_no_records : no_records example_tsdb "ep-1" 0 100.
Proof.
  intros table rows s Ht Hin Hep. unfold example_tsdb in Ht. simpl in Ht.
  apply lookup_insert_Some in Ht as [[_ <-]|[_ Ht]].
  { apply elem_of_cons in Hin as [->|Hin]; [reflexivity|].
    apply list_elem_of_singleton in Hin as ->. discriminate Hep. }
  apply lookup_insert_Some in Ht as [[_ <-]|[_ Ht]].
  { apply list_elem_of_singleton in Hin as ->. discriminate Hep. }
  apply lookup_insert_Some in Ht as [[_ <-]|[_ Ht]].
  { by apply elem_of_nil in Hin. }
  by rewrite lookup_empty in Ht.
Qed.

Lemma example_no_predictions (s : Sample Z) :
  s ∈ rows_of example_tsdb "predictions" -> endpoint_id s <> "ep-1".
Proof.
  intros Hs. vm_compute in Hs. apply list_elem_of_singleton in Hs as ->.
  discriminate.
Qed.

Lemma example_no_kld (s : Sample Z) :
  s ∈ rows_of example_tsdb (table_of_type metrics) ->
  ~ (endpoint_id s = "ep-2" /\ in_range 0 100 s = true
     /\ application_name s = app kld /\ sample_name s = name kld).
Proof.
  intros Hs (_ & _ & _ & Hn). vm_compute in Hs.
  apply elem_of_cons in Hs as [->|Hs]; [discriminate Hn|].
  apply list_elem_of_singleton in Hs as ->. discriminate Hn.
Qed.

(** The amended C1 on the example: [ep-1] has no record between 0 and
    100 and no prediction at all; [ep-2] has a prediction and a sample of
    one of the two requested descriptors. *)
Lemma no_records_no_data_marker_witness :
  no_records example_tsdb "ep-1" 0 100
  /\ InMemory_read_metrics_data example_tsdb "ep-1" 0 100 [hellinger; kld] metrics
    = [MetricNoData hellinger; MetricNoData kld]
  /\ InMemory_read_predictions (fun _ series => series) example_tsdb "ep-1" 0 100 None
    = MetricNoData invocations_metric
  /\ InMemory_read_prediction_metric_for_endpoint_if_exists example_tsdb "ep-1" = None
  /\ InMemory_read_prediction_metric_for_endpoint_if_exists example_tsdb "ep-2"
    = Some invocations_metric
  /\ InMemory_read_metrics_data example_tsdb "ep-2" 0 100 [kld; hellinger] metrics
       !! 0%nat
    = Some (MetricNoData kld).
Proof.
  split; [exact example_no_records|].
  destruct (no_records_no_data_marker (fun _ series => series)
              example_tsdb "ep-1" 0 100 [hellinger; kld] metrics None)
    as (Hno & _ & _ & Hnone & _).
  destruct (no_records_no_data_marker (fun _ series => series)
              example_tsdb "ep-2" 0 100 [kld; hellinger] metrics None)
    as (_ & Hone & _ & _ & Hsome).
  destruct (Hno example_no_records) as [Hm Hp].
  split; [exact Hm|]. split; [exact Hp|].
  split; [apply Hnone; exact example_no_predictions|]. split.
  - apply Hsome.
    exists (mkSample "ep-2" 60 "mlrun-infra" "invocations" 1 EmptyString []).
    split; [|reflexivity]. vm_compute. apply list_elem_of_here.
  - destruct (Hone 0%nat kld eq_refl) as (d & Hd & _ & Hiff).
    rewrite Hd. f_equal. apply Hiff. exact example_no_kld.
Defined.

(** C1 as stated fails: [ep-1] has no record between 0 and 100, and
    [read_prediction_metric_for_endpoint_if_exists] answers None, which is
    no tagged no-data value. *)
Lemma optional_metric_is_bare_null :
  InMemory_read_prediction_metric_for_endpoint_if_exists example_tsdb "ep-1" = None
  /\ ~ (no_records example_tsdb "ep-1" 0 100 ->
        Forall (fun d => shape d = NoDataMarker)
          (InMemory_read_metrics_data example_tsdb "ep-1" 0 100 [hellinger; kld] metrics)
        /\ shape (InMemory_read_predictions (fun _ series => series)
                    example_tsdb "ep-1" 0 100 None) = NoDataMarker
        /\ shape_optional
             (InMemory_read_prediction_metric_for_endpoint_if_exists example_tsdb "ep-1")
           = NoDataMarker).
Proof.
  split; [reflexivity|].
  intros H. destruct (H example_no_records) as (_ & _ & Hnull).
  vm_compute in Hnull. discriminate Hnull.
Qed.


(** C5 as stated fails: after the call without [kind], the event is not
    among the results of the connector, nor anywhere else in it. *)
Lemma base_write_application_event_persists_nothing :
  ~ (exists self' : InMemoryTSDB Z,
       Base.write_application_event example_tsdb
         (mkSample "ep-1" 700 "drift-app" "data-drift" 1 "detected" []) None
       = Ok (self', tt)
       /\ mkSample "ep-1" 700 "drift-app" "data-drift" 1 "detected" []
          ∈ rows_of self' "app_results").
Proof.
  intros (self' & Hw & Hin). injection Hw as <-.
  vm_compute in Hin. by apply elem_of_nil in Hin.
Qed.

(** C4 as stated fails: "yesterday" is none of the listed time
    expressions, and the method accepts it as it accepts "now". *)
Lemma real_time_metrics_accepts_yesterday :
  spec_time_expression "yesterday" = false
  /\ ~ (is_ok (Base.get_model_endpoint_real_time_metrics
                 (R := gmap string (list (string * Z)))
                 example_tsdb "ep-1" ["latency_avg_5m"] "yesterday" "now")
        = true
        <-> spec_time_expression "yesterday" = true
            /\ spec_time_expression "now" = true).
Proof.
  split; [reflexivity|]. intros [H _].
  destruct (H eq_refl) as [Hy _]. discriminate Hy.
Qed.

(** ** Time expressions *)

Example documented_time_expressions_accepted :
  forallb documented_time_expression
    ["now"; "now-5m"; "now-12h"; "now-7d"; "0"; "1625068569543";
     "2021-06-30T15:56:09Z"; "2021-06-30T15:56:09.543139+03:00"] = true.
Proof. reflexivity. Qed.

Example documented_time_expressions_refused :
  existsb documented_time_expression
    ["yesterday"; "now-"; "now-m"; "now-5"; "now-5w"; "now+5m"; "-1";
     "2021-06-30"; "2021-06-30T15:56:09"] = false.
Proof. reflexivity. Qed.

Lemma spec_time_expression_legend (s : string) :
  spec_time_expression s = is_time_expression legend_units s.
Proof.
  unfold spec_time_expression, is_time_expression, legend_units.
  by destruct (is_rfc3339 s), (is_unix_millis s), (String.eqb s "now").
Qed.

Lemma one_of_legend_units (u : ascii) :
  one_of legend_units u = one_of pattern_units u || one_of ["s"%char] u.
Proof.
  unfold one_of, legend_units, pattern_units. simpl.
  by destruct (Ascii.eqb u "m"), (Ascii.eqb u "h"), (Ascii.eqb u "d"), (Ascii.eqb u "s").
Qed.

Lemma is_now_minus_legend (s : string) :
  is_now_minus legend_units s
  = is_now_minus pattern_units s || is_now_minus ["s"%char] s.
Proof.
  unfold is_now_minus.
  destruct (eat _ (list_ascii_of_string s)) as [rest|]; [|reflexivity].
  destruct (eat_digits1 rest) as [[|u [|? ?]]|]; try reflexivity.
  apply one_of_legend_units.
Qed.

(** The expressions the specification lists are those the documented
    pattern matches and, besides, "now-" with a number and the unit s,
    which the docstring explains but its pattern leaves out. *)
Lemma spec_time_expression_documented (s : string) :
  spec_time_expression s
  = documented_time_expression s || is_now_minus ["s"%char] s.
Proof.
  rewrite spec_time_expression_legend.
  unfold documented_time_expression, is_time_expression.
  rewrite is_now_minus_legend.
  destruct (is_rfc3339 s), (is_unix_millis s), (String.eqb s "now"),
    (is_now_minus pattern_units s), (is_now_minus ["s"%char] s),
    (String.eqb s "0"); reflexivity.
Qed.

End TSDBFacts.

(** * Facts about the migration *)

Module MigrationFacts.
Import Migration.

Lemma upgrade_on_existing (db : Schema) (t : Table) :
  db !! "marketplace_sources" = Some t ->
  upgrade db = Raise (TableAlreadyExists "marketplace_sources").
Proof. intros H. unfold upgrade, create_table. by rewrite H. Qed.

Lemma upgrade_ok_inv (db db' : Schema) :
  upgrade db = Ok db' ->
  db !! "marketplace_sources" = None
  /\ db' = <["marketplace_sources" := marketplace_sources]> db.
Proof.
  unfold upgrade, create_table.
  destruct (db !! "marketplace_sources"); [discriminate|].
  intros [= <-]. by split.
Qed.

(** C7. On a database without the table, [upgrade] adds the table
    [marketplace_sources] and touches no other; its columns are [id]
    (integer), [name] (string), [index] (integer), [created] and [updated]
    (timestamps) and [object] (JSON), in this order and no more; its
    constraints are the primary key on [id] and the unique constraint on
    [name], and no more. *)
Theorem upgrade_creates_marketplace_sources (db : Schema) :
  db !! "marketplace_sources" = None ->
  exists db',
    upgrade db = Ok db'
    /\ dom db' = {["marketplace_sources"]} ∪ dom db
    /\ (forall t, t <> "marketplace_sources" -> db' !! t = db !! t)
    /\ (exists tbl,
          db' !! "marketplace_sources" = Some tbl
          /\ map (fun c => (col_name c, col_type c)) (columns tbl)
             = [ ("id", Integer); ("name", String_); ("index", Integer);
                 ("created", TIMESTAMP); ("updated", TIMESTAMP); ("object", JSON) ]
          /\ constraints tbl
             = [ PrimaryKeyConstraint ["id"];
                 UniqueConstraint ["name"] (Some "_marketplace_sources_uc") ]).
Proof.
  intros Hfresh. exists (<["marketplace_sources" := marketplace_sources]> db).
  split; [|split; [|split]].
  - unfold upgrade, create_table. by rewrite Hfresh.
  - apply dom_insert_L.
  - intros t Ht. by apply lookup_insert_ne.
  - exists marketplace_sources. split; [apply lookup_insert_eq|]. by split.
Qed.

Lemma upgrade_creates_marketplace_sources_witness :
  example_schema !! "marketplace_sources" = None
  /\ exists db',
    upgrade example_schema = Ok db'
    /\ dom db' = {["marketplace_sources"]} ∪ dom example_schema
    /\ (forall t, t <> "marketplace_sources" -> db' !! t = example_schema !! t)
    /\ (exists tbl,
          db' !! "marketplace_sources" = Some tbl
          /\ map (fun c => (col_name c, col_type c)) (columns tbl)
             = [ ("id", Integer); ("name", String_); ("index", Integer);
                 ("created", TIMESTAMP); ("updated", TIMESTAMP); ("object", JSON) ]
          /\ constraints tbl
             = [ PrimaryKeyConstraint ["id"];
                 UniqueConstraint ["name"] (Some "_marketplace_sources_uc") ]).
Proof.
  split; [reflexivity|].
  apply (upgrade_creates_marketplace_sources example_schema). reflexivity.
Defined.

(** C9. [upgrade] followed by [downgrade] gives back the schema it
    started from: wherever [upgrade] applies, it adds the one table
    [marketplace_sources], and [downgrade] then succeeds and removes
    exactly that table. *)
Theorem upgrade_downgrade_roundtrip (db : Schema) :
  db !! "marketplace_sources" = None ->
  exists db',
    upgrade db = Ok db'
    /\ downgrade db' = Ok (delete "marketplace_sources" db')
    /\ bind (upgrade db) downgrade = Ok db.
Proof.
  intros Hfresh. exists (<["marketplace_sources" := marketplace_sources]> db).
  assert (Hup : upgrade db = Ok (<["marketplace_sources" := marketplace_sources]> db)).
  { unfold upgrade, create_table. by rewrite Hfresh. }
  assert (Hdown : downgrade (<["marketplace_sources" := marketplace_sources]> db)
                  = Ok (delete "marketplace_sources"
                          (<["marketplace_sources" := marketplace_sources]> db))).
  { unfold downgrade, drop_table. by rewrite lookup_insert_eq. }
  split; [exact Hup|]. split; [exact Hdown|].
  rewrite Hup. simpl. rewrite Hdown. f_equal. by apply delete_insert_id.
Qed.

Lemma upgrade_downgrade_roundtrip_witness :
  example_schema !! "marketplace_sources" = None
  /\ bind (upgrade example_schema) downgrade = Ok example_schema.
Proof.
  split; [reflexivity|].
  destruct (upgrade_downgrade_roundtrip example_schema eq_refl) as (db' & _ & _ & H).
  exact H.
Defined.

(** ** Rows of [marketplace_sources] *)

Lemma cell_with_id (i : Z) (r : Row) (c : string) :
  c <> "id" -> cell (with_id i r) c = cell r c.
Proof.
  intros Hc. unfold cell.
  destruct (String.eqb_spec c "id") as [->|_]; [done|reflexivity].
Qed.

Lemma cell_id (r : Row) : cell r "id" = from_option VInt NULL (row_id r).
Proof. reflexivity. Qed.

Lemma cell_id_with_id (i : Z) (r : Row) : cell (with_id i r) "id" = VInt i.
Proof. reflexivity. Qed.

Lemma assign_id_given (t : Table) (rows : list Row) (r : Row) :
  cell r "id" <> NULL -> assign_id t rows r = Ok r.
Proof.
  rewrite cell_id. unfold assign_id. by destruct (row_id r).
Qed.

(** The stored row is the given one but for the id, and is the given one
    if that came with an id. *)
Lemma assign_id_ok (t : Table) (rows : list Row) (r stored : Row) :
  assign_id t rows r = Ok stored ->
  (forall c, c <> "id" -> cell stored c = cell r c)
  /\ (cell r "id" <> NULL -> stored = r)
  /\ (stored = r \/ exists i, new_rowid rows = Some i /\ stored = with_id i r).
Proof.
  intros H. split; [|split].
  - unfold assign_id in H. destruct (row_id r); [by injection H as <-|].
    destruct (id_is_rowid t); [|by injection H as <-].
    destruct (new_rowid rows) as [i|]; [|discriminate].
    injection H as <-. intros c Hc. by apply cell_with_id.
  - intros Hid. rewrite (assign_id_given t rows r Hid) in H. by injection H.
  - unfold assign_id in H. destruct (row_id r); [left; by injection H|].
    destruct (id_is_rowid t); [|left; by injection H].
    destruct (new_rowid rows) as [i|]; [|discriminate].
    right. exists i. split; [reflexivity|]. by injection H.
Qed.

Lemma insert_row_ok_inv (t : Table) (rows rows' : list Row) (r : Row) :
  insert_row t rows r = Ok rows' ->
  exists stored,
    assign_id t rows r = Ok stored
    /\ rows' = rows ++ [stored]
    /\ (forall c, In c (columns t) -> column_ok stored c = true)
    /\ (forall k, In k (constraints t) -> constraint_ok rows stored k = true).
Proof.
  unfold insert_row.
  destruct (assign_id t rows r) as [stored|]; [|discriminate].
  destruct (List.find (fun c => negb (column_ok stored c)) (columns t)) eqn:Ec;
    [discriminate|].
  destruct (List.find (fun k => negb (constraint_ok rows stored k)) (constraints t))
    eqn:Ek; [discriminate|].
  intros [= <-]. exists stored. split; [reflexivity|]. split; [reflexivity|]. split.
  - intros c Hc. apply (find_none _ _ Ec) in Hc. by apply negb_false_iff in Hc.
  - intros k Hk. apply (find_none _ _ Ek) in Hk. by apply negb_false_iff in Hk.
Qed.

Lemma collide_name (r r' : Row) :
  collide ["name"] r r' = true <->
  cell r "name" <> NULL /\ cell r "name" = cell r' "name".
Proof.
  unfold collide. cbn [forallb]. rewrite andb_true_r, andb_true_iff, negb_true_iff.
  rewrite bool_decide_eq_true.
  split; intros [Hn He]; (split; [|exact He]).
  - intros E. by rewrite E in Hn.
  - by destruct (cell r "name").
Qed.

Lemma unique_name_ok (rows : list Row) (r r' : Row) (n : option string) :
  constraint_ok rows r (UniqueConstraint ["name"] n) = true ->
  r' ∈ rows -> cell r "name" <> NULL -> cell r "name" <> cell r' "name".
Proof.
  unfold constraint_ok. intros Hok Hin Hnn He.
  rewrite forallb_forall in Hok.
  specialize (Hok r' (proj1 (list_elem_of_In _ _) Hin)).
  cbn [constraint_cols] in Hok.
  assert (Hc : collide ["name"] r r' = true) by (by apply collide_name).
  rewrite Hc in Hok. discriminate Hok.
Qed.

Lemma unique_name_violated (rows : list Row) (r r' : Row) :
  r' ∈ rows -> cell r "name" <> NULL -> cell r "name" = cell r' "name" ->
  is_ok (insert_row marketplace_sources rows r) = false.
Proof.
  intros Hin Hnn He.
  destruct (insert_row marketplace_sources rows r) as [rows'|e] eqn:E; [|reflexivity].
  apply insert_row_ok_inv in E as (stored & Ha & _ & _ & Hk).
  apply assign_id_ok in Ha as (Hsame & _ & _).
  assert (Hname : cell stored "name" = cell r "name") by (by apply Hsame).
  exfalso.
  refine (unique_name_ok rows stored r' (Some "_marketplace_sources_uc") _ Hin _ _).
  - apply Hk. simpl. auto.
  - by rewrite Hname.
  - by rewrite Hname.
Qed.

(** C6, as amended. In every content the table can have, two distinct rows
    that carry a name carry different names, and an INSERT of a row whose
    name some row already carries fails. Rows without a name are not
    constrained. *)
Theorem name_unique_among_named (rows : list Row) :
  reachable marketplace_sources rows ->
  (forall (i j : nat) (r1 r2 : Row),
     i <> j -> rows !! i = Some r1 -> rows !! j = Some r2 ->
     cell r1 "name" <> NULL -> cell r1 "name" <> cell r2 "name")
  /\ (forall (r r' : Row),
        r' ∈ rows -> cell r "name" <> NULL -> cell r "name" = cell r' "name" ->
        is_ok (insert_row marketplace_sources rows r) = false).
Proof.
  intros Hreach. split; [|intros r r'; apply unique_name_violated].
  induction Hreach as [|rows r0 rows' _ IH Hins].
  - intros i j r1 r2 _ H1. by rewrite lookup_nil in H1.
  - apply insert_row_ok_inv in Hins as (r & _ & -> & _ & Hk).
    assert (Hu : constraint_ok rows r
                   (UniqueConstraint ["name"] (Some "_marketplace_sources_uc")) = true)
      by (apply Hk; simpl; auto).
    intros i j r1 r2 Hij H1 H2 Hnn.
    apply lookup_snoc_Some in H1 as [[_ H1]|[Hi <-]];
      apply lookup_snoc_Some in H2 as [[_ H2]|[Hj <-]].
    + by apply (IH i j).
    + intros He.
      refine (unique_name_ok rows r r1 _ Hu _ _ _).
      * apply list_elem_of_lookup. by exists i.
      * by rewrite <- He.
      * by symmetry.
    + apply (unique_name_ok rows r r2 _ Hu); [|exact Hnn].
      apply list_elem_of_lookup. by exists j.
    + congruence.
Qed.

Lemma two_named_reachable :
  reachable marketplace_sources [named_source 1 "hub"; named_source 2 "mirror"].
Proof.
  apply (reach_insert _ [named_source 1 "hub"] (named_source 2 "mirror")).
  - apply (reach_insert _ [] (named_source 1 "hub")); [constructor|reflexivity].
  - reflexivity.
Qed.

Lemma name_unique_among_named_witness :
  reachable marketplace_sources [named_source 1 "hub"; named_source 2 "mirror"]
  /\ cell (named_source 1 "hub") "name" <> cell (named_source 2 "mirror") "name"
  /\ is_ok (insert_row marketplace_sources
              [named_source 1 "hub"; named_source 2 "mirror"]
              (named_source 3 "hub")) = false.
Proof.
  split; [exact two_named_reachable|].
  destruct (name_unique_among_named _ two_named_reachable) as [Hd Hi].
  split.
  - apply (Hd 0%nat 1%nat); [lia|reflexivity|reflexivity|discriminate].
  - apply (Hi (named_source 3 "hub") (named_source 1 "hub"));
      [apply list_elem_of_here|discriminate|reflexivity].
Defined.

(** C6 as stated fails: two rows without a name are both inserted, and
    they do not differ in [name]. *)
Lemma unnamed_sources_share_name :
  insert_row marketplace_sources [] (unnamed_source 1) = Ok [unnamed_source 1]
  /\ insert_row marketplace_sources [unnamed_source 1] (unnamed_source 2)
     = Ok [unnamed_source 1; unnamed_source 2]
  /\ reachable marketplace_sources [unnamed_source 1; unnamed_source 2]
  /\ ~ names_differ [unnamed_source 1; unnamed_source 2].
Proof.
  assert (H1 : insert_row marketplace_sources [] (unnamed_source 1)
               = Ok [unnamed_source 1]) by reflexivity.
  assert (H2 : insert_row marketplace_sources [unnamed_source 1] (unnamed_source 2)
               = Ok [unnamed_source 1; unnamed_source 2]) by reflexivity.
  split; [exact H1|]. split; [exact H2|]. split.
  - eapply reach_insert; [|exact H2]. eapply reach_insert; [constructor|exact H1].
  - intros Hd.
    apply (Hd 0%nat 1%nat (unnamed_source 1) (unnamed_source 2));
      [lia|reflexivity|reflexivity|reflexivity].
Qed.

Lemma find_all_false {A : Type} (f : A -> bool) (l : list A) :
  (forall x, In x l -> f x = false) -> List.find f l = None.
Proof.
  induction l as [|a l IH]; intros H; simpl; [reflexivity|].
  rewrite (H a) by (simpl; auto). apply IH. intros x Hx. apply H. simpl. auto.
Qed.

Lemma nullable_unless_id (c : Column) :
  In c (columns marketplace_sources) ->
  nullable c = negb (String.eqb (col_name c) "id").
Proof.
  simpl. intros H. repeat (destruct H as [<-|H]; [reflexivity|]). destruct H.
Qed.

(** What the six columns demand of a stored row comes to this: its id is
    an integer within 64 bits, and so is its index if it has one. *)
Lemma columns_ok_stored (r : Row) :
  (forall c, In c (columns marketplace_sources) -> column_ok r c = true) <->
  (exists i, cell r "id" = VInt i /\ int64 i = true)
  /\ in_range (cell r "index") = true.
Proof.
  split.
  - intros H. split.
    + specialize (H (mkColumn "id" Integer false)). unfold column_ok in H.
      cbn [col_name nullable] in H. rewrite cell_id in *.
      destruct (row_id r) as [i|]; simpl in *.
      * exists i. split; [reflexivity|].
        destruct (int64 i); [reflexivity|]. apply H. auto.
      * assert (false = true) by (apply H; auto). discriminate.
    + specialize (H (mkColumn "index" Integer true)). unfold column_ok in H.
      cbn [col_name nullable] in H. rewrite orb_true_l, andb_true_r in H.
      apply H. simpl. auto.
  - intros [(i & Hi & Hr) Hx] c Hc. simpl in Hc.
    destruct Hc as [<-|[<-|[<-|[<-|[<-|[<-|[]]]]]]]; unfold column_ok;
      cbn [col_name nullable]; rewrite ?orb_true_l, ?andb_true_r; try exact Hx.
    + by rewrite Hi; simpl; rewrite Hr.
    + unfold cell. simpl. by destruct (row_name r).
    + unfold cell. simpl. by destruct (row_created r).
    + unfold cell. simpl. by destruct (row_updated r).
    + unfold cell. simpl. by destruct (row_object r).
Qed.

Lemma reachable_ids (rows : list Row) :
  reachable marketplace_sources rows ->
  forall r, r ∈ rows -> exists i, cell r "id" = VInt i /\ int64 i = true.
Proof.
  induction 1 as [|rows r0 rows' _ IH Hins]; intros r Hr.
  - by apply elem_of_nil in Hr.
  - apply insert_row_ok_inv in Hins as (stored & _ & -> & Hc & _).
    apply elem_of_app in Hr as [Hr|Hr]; [by apply IH|].
    apply list_elem_of_singleton in Hr as ->.
    by apply columns_ok_stored in Hc as [? _].
Qed.

Lemma stored_ids_elem (rows : list Row) (r : Row) (i : Z) :
  r ∈ rows -> cell r "id" = VInt i -> i ∈ stored_ids rows.
Proof.
  intros Hr Hi. rewrite cell_id in Hi. unfold stored_ids.
  apply list_elem_of_omap. exists r. split; [exact Hr|].
  destruct (row_id r); simpl in Hi; [by injection Hi as ->|discriminate].
Qed.

Lemma foldr_max_bound (i : Z) (ids : list Z) :
  foldr Z.max i ids ∈ i :: ids
  /\ forall j, j ∈ i :: ids -> j <= foldr Z.max i ids.
Proof.
  induction ids as [|k ids [IHin IHle]]; simpl.
  - split; [apply list_elem_of_here|].
    intros j Hj. apply list_elem_of_singleton in Hj as ->. lia.
  - split.
    + destruct (Z.max_spec k (foldr Z.max i ids)) as [[_ ->]|[_ ->]].
      * apply elem_of_cons in IHin as [->|IHin]; [apply list_elem_of_here|].
        by do 2 apply list_elem_of_further.
      * apply list_elem_of_further, list_elem_of_here.
    + intros j Hj. apply elem_of_cons in Hj as [->|Hj].
      * specialize (IHle i (list_elem_of_here _ _)). lia.
      * apply elem_of_cons in Hj as [->|Hj]; [lia|].
        specialize (IHle j (list_elem_of_further _ _ _ Hj)). lia.
Qed.

(** The id of a new row where no stored id is the largest possible one:
    1 in an empty table, otherwise the successor of the largest stored
    id. *)
Lemma new_rowid_next (rows : list Row) :
  (forall j, j ∈ stored_ids rows -> j < max_rowid) ->
  exists g,
    new_rowid rows = Some g
    /\ (forall j, j ∈ stored_ids rows -> j < g)
    /\ (stored_ids rows = [] -> g = 1)
    /\ (stored_ids rows <> [] -> g - 1 ∈ stored_ids rows).
Proof.
  intros Hlt. unfold new_rowid. destruct (stored_ids rows) as [|i ids].
  - exists 1. split; [reflexivity|]. split; [|done].
    intros j Hj. by apply elem_of_nil in Hj.
  - destruct (foldr_max_bound i ids) as [Hin Hle].
    pose proof (Hlt _ Hin) as Hm. apply Z.ltb_lt in Hm. rewrite Hm.
    exists (foldr Z.max i ids + 1). split; [reflexivity|]. split; [|split].
    + intros j Hj. specialize (Hle j Hj). lia.
    + discriminate.
    + intros _. by replace (foldr Z.max i ids + 1 - 1) with (foldr Z.max i ids) by lia.
Qed.

(** C10. In the schema that [upgrade] creates, [id] is the only column
    declared NOT NULL; [name], [index], [created], [updated] and [object]
    are nullable. So a row without a name is inserted, other rows without
    a name and the unique constraint on [name] notwithstanding, be it with
    an id of its own that no row has or without one, in which case the
    database gives it the next id. No stored row is without an id. *)
Theorem name_is_nullable (rows : list Row) (r : Row) (i : Z) :
  map (fun c => (col_name c, nullable c)) (columns marketplace_sources)
    = [ ("id", false); ("name", true); ("index", true);
        ("created", true); ("updated", true); ("object", true) ]
  /\ (reachable marketplace_sources rows ->
      forall r', r' ∈ rows -> cell r' "id" <> NULL)
  /\ (cell r "name" = NULL ->
      cell r "id" = VInt i -> int64 i = true ->
      in_range (cell r "index") = true ->
      (forall r', r' ∈ rows -> cell r' "id" <> VInt i) ->
      insert_row marketplace_sources rows r = Ok (rows ++ [r]))
  /\ (cell r "name" = NULL ->
      cell r "id" = NULL ->
      in_range (cell r "index") = true ->
      reachable marketplace_sources rows ->
      (forall j, j ∈ stored_ids rows -> j < max_rowid) ->
      exists g,
        insert_row marketplace_sources rows r = Ok (rows ++ [with_id g r])
        /\ (forall r', r' ∈ rows -> cell r' "id" <> VInt g)
        /\ (rows = [] -> g = 1)
        /\ (rows <> [] -> g - 1 ∈ stored_ids rows
                          /\ forall j, j ∈ stored_ids rows -> j < g)).
Proof.
  assert (Hins : forall stored g,
            assign_id marketplace_sources rows r = Ok stored ->
            cell stored "name" = NULL ->
            cell stored "id" = VInt g -> int64 g = true ->
            in_range (cell stored "index") = true ->
            (forall r', r' ∈ rows -> cell r' "id" <> VInt g) ->
            insert_row marketplace_sources rows r = Ok (rows ++ [stored])).
  { intros stored g Ha Hname Hid Hg Hx Hfresh. unfold insert_row. rewrite Ha.
    rewrite find_all_false.
    2:{ intros c Hc. apply negb_false_iff. revert c Hc.
        apply columns_ok_stored. split; [by exists g|exact Hx]. }
    rewrite find_all_false; [reflexivity|].
    intros k Hk. apply negb_false_iff. unfold constraint_ok.
    apply forallb_forall. intros r' Hr'. apply negb_true_iff.
    apply list_elem_of_In in Hr'.
    simpl in Hk. destruct Hk as [<-|[<-|[]]]; unfold collide;
      cbn [constraint_cols forallb].
    + rewrite Hid. simpl. rewrite bool_decide_eq_false_2; [reflexivity|].
      intros E. by apply (Hfresh r' Hr').
    + by rewrite Hname. }
  split; [reflexivity|]. split; [|split].
  - intros Hreach r' Hr'.
    destruct (reachable_ids rows Hreach r' Hr') as (j & -> & _). discriminate.
  - intros Hname Hid Hi Hx Hfresh.
    apply (Hins r i); try done. apply assign_id_given. by rewrite Hid.
  - intros Hname Hid Hx Hreach Hlt.
    destruct (new_rowid_next rows Hlt) as (g & Hg & Hbig & Hone & Hprev).
    assert (Hfresh : forall r', r' ∈ rows -> cell r' "id" <> VInt g).
    { intros r' Hr' E. pose proof (stored_ids_elem rows r' g Hr' E) as Hin.
      specialize (Hbig g Hin). lia. }
    assert (Hrange : int64 g = true).
    { destruct (decide (stored_ids rows = [])) as [Eids|Eids].
      - by rewrite (Hone Eids).
      - pose proof (Hprev Eids) as Hp.
        pose proof (Hlt _ Hp) as Hup.
        unfold stored_ids in Hp. apply list_elem_of_omap in Hp as (r' & Hr' & Hp).
        destruct (reachable_ids rows Hreach r' Hr') as (j' & Hj' & Hr64).
        rewrite cell_id, Hp in Hj'. simpl in Hj'. injection Hj' as <-.
        unfold int64 in *. unfold max_rowid in Hup.
        apply andb_true_iff in Hr64 as [Hlo _]. apply Z.leb_le in Hlo.
        apply andb_true_iff. split; [apply Z.leb_le|apply Z.ltb_lt]; lia. }
    exists g. split; [|split; [exact Hfresh|split]].
    + apply (Hins (with_id g r) g); try done; try (by rewrite cell_with_id).
      unfold assign_id. rewrite cell_id in Hid.
      destruct (row_id r); [discriminate|]. by rewrite Hg.
    + intros ->. by apply Hone.
    + intros Hne. assert (Hids : stored_ids rows <> []).
      { destruct rows as [|r' rows']; [done|].
        assert (Hr' : r' ∈ r' :: rows') by apply list_elem_of_here.
        destruct (reachable_ids _ Hreach r' Hr') as (j & Hj & _).
        intros E. pose proof (stored_ids_elem _ r' j Hr' Hj) as Hin.
        rewrite E in Hin. by apply elem_of_nil in Hin. }
      split; [by apply Hprev|exact Hbig].
Qed.

Lemma name_is_nullable_witness :
  insert_row marketplace_sources [unnamed_source 1] (unnamed_source 2)
    = Ok [unnamed_source 1; unnamed_source 2]
  /\ insert_row marketplace_sources [unnamed_source 1; unnamed_source 7]
       (mkRow None None None None None None)
     = Ok [unnamed_source 1; unnamed_source 7; unnamed_source 8]
  /\ cell (unnamed_source 7) "id" <> NULL.
Proof.
  assert (Hreach : reachable marketplace_sources [unnamed_source 1; unnamed_source 7]).
  { apply (reach_insert _ [unnamed_source 1] (unnamed_source 7)); [|reflexivity].
    apply (reach_insert _ [] (unnamed_source 1)); [constructor|reflexivity]. }
  destruct (name_is_nullable [unnamed_source 1] (unnamed_source 2) 2)
    as (_ & _ & Hgiven & _).
  destruct (name_is_nullable [unnamed_source 1; unnamed_source 7]
              (mkRow None None None None None None) 0)
    as (_ & Hids & _ & Hnew).
  split; [|split].
  - apply Hgiven; try reflexivity.
    intros r' Hr'. apply list_elem_of_singleton in Hr' as ->. discriminate.
  - destruct (Hnew eq_refl eq_refl eq_refl Hreach) as (g & Hg & _ & _ & Hprev).
    { intros j Hj. simpl in Hj.
      apply elem_of_cons in Hj as [->|Hj]; [reflexivity|].
      apply list_elem_of_singleton in Hj as ->. reflexivity. }
    rewrite Hg. do 2 f_equal.
    destruct Hprev as [Hprev Hbig]; [discriminate|].
    assert (g = 8); [|by subst].
    pose proof (Hbig 7) as H7. simpl in Hprev, H7.
    assert (7 < g) by (apply H7; apply list_elem_of_further, list_elem_of_here).
    apply elem_of_cons in Hprev as [Hp|Hp]; [lia|].
    apply list_elem_of_singleton in Hp. lia.
  - apply (Hids Hreach). apply list_elem_of_further, list_elem_of_here.
Defined.

End MigrationFacts.

(** * Facts about the frontend-spec schemas *)

Module FrontendSpecFacts.
Import FrontendSpec.

Lemma enum_call_Some {E : Type} (members : list E) (value_of : E -> string)
    (s : string) :
  is_Some (enum_call members value_of (PyStr s)) <-> s ∈ map value_of members.
Proof.
  simpl. induction members as [|m ms IH]; simpl.
  - split; [intros [? [=]]|intros H; by apply elem_of_nil in H].
  - destruct (String.eqb_spec (value_of m) s) as [<-|Hne].
    + split; [intros _; apply list_elem_of_here|intros _; by eexists].
    + rewrite IH, elem_of_cons. split; [auto|]. intros [->|H]; [done|exact H].
Qed.

Lemma enum_call_value {E : Type} (members : list E) (value_of : E -> string)
    (v : PyVal) (m : E) :
  enum_call members value_of v = Some m -> v = PyStr (value_of m).
Proof.
  destruct v; simpl; try discriminate. intros H.
  apply find_some in H as [_ H]. apply String.eqb_eq in H. by rewrite H.
Qed.

(** One enum field is accepted exactly when the input holds, under the
    field's name, the value of a member. *)
Lemma validate_enum_field_ok {E : Type} (members : list E)
    (value_of : E -> string) (name : string) (data : gmap string PyVal) :
  is_ok (validate_enum_field members value_of name data) = true <->
  exists s, data !! name = Some (PyStr s) /\ s ∈ map value_of members.
Proof.
  unfold validate_enum_field.
  destruct (data !! name) as [[| b | z | s]|]; simpl;
    try (split; [discriminate|intros (s' & [=] & _)]).
  pose proof (enum_call_Some members value_of s) as Hs. simpl in Hs.
  destruct (List.find _ members) as [m|]; simpl.
  - split; [intros _|reflexivity]. exists s. split; [reflexivity|].
    apply Hs. by eexists.
  - split; [discriminate|]. intros (s' & [= <-] & Hin).
    apply Hs in Hin as [? [=]].
Qed.

Lemma validate_enum_field_value {E : Type} (members : list E)
    (value_of : E -> string) (name : string) (data : gmap string PyVal) (m : E) :
  validate_enum_field members value_of name data = Ok m ->
  data !! name = Some (PyStr (value_of m)).
Proof.
  unfold validate_enum_field.
  destruct (data !! name) as [v|]; [|discriminate].
  destruct v eqn:Ev; try discriminate;
    (destruct (enum_call _ _ _) as [m'|] eqn:Ec; [|discriminate]);
    intros [= <-]; apply enum_call_value in Ec; by rewrite Ec.
Qed.

(** C8. [FeatureFlags] is accepted exactly when [project_membership] is
    "enabled" or "disabled" and [authentication] is "none", "basic",
    "bearer" or "iguazio"; the accepted object holds the members of these
    values, and any other input is refused with a validation error that
    lists at least one error. *)
Theorem FeatureFlags_closed_enumerations (data : gmap string PyVal) :
  (is_ok (FeatureFlags_validate data) = true <->
   (exists s, data !! "project_membership" = Some (PyStr s)
              /\ s ∈ ["enabled"; "disabled"])
   /\ (exists s, data !! "authentication" = Some (PyStr s)
                 /\ s ∈ ["none"; "basic"; "bearer"; "iguazio"]))
  /\ match FeatureFlags_validate data with
     | Ok ff =>
       data !! "project_membership"
         = Some (PyStr (ProjectMembershipFeatureFlag_value (project_membership ff)))
       /\ data !! "authentication"
         = Some (PyStr (AuthenticationFeatureFlag_value (authentication ff)))
     | Raise errs => errs <> []
     end.
Proof.
  pose proof (validate_enum_field_ok ProjectMembershipFeatureFlag_members
                ProjectMembershipFeatureFlag_value "project_membership" data) as Hp.
  pose proof (validate_enum_field_ok AuthenticationFeatureFlag_members
                AuthenticationFeatureFlag_value "authentication" data) as Ha.
  pose proof (validate_enum_field_value ProjectMembershipFeatureFlag_members
                ProjectMembershipFeatureFlag_value "project_membership" data) as Vp.
  pose proof (validate_enum_field_value AuthenticationFeatureFlag_members
                AuthenticationFeatureFlag_value "authentication" data) as Va.
  change (map ProjectMembershipFeatureFlag_value ProjectMembershipFeatureFlag_members)
    with ["enabled"; "disabled"] in Hp.
  change (map AuthenticationFeatureFlag_value AuthenticationFeatureFlag_members)
    with ["none"; "basic"; "bearer"; "iguazio"] in Ha.
  unfold FeatureFlags_validate.
  destruct (validate_enum_field _ _ "project_membership" data) as [p|ep];
    destruct (validate_enum_field _ _ "authentication" data) as [a|ea];
    simpl in *; (split; [|auto; discriminate]);
    rewrite <- Hp, <- Ha; intuition discriminate.
Qed.

End FrontendSpecFacts.

(** * Further facts about the migration *)

Module MigrationLaws.
Import Migration MigrationFacts.

Lemma collide_single (c : string) (r r' : Row) :
  collide [c] r r' = true <-> cell r c <> NULL /\ cell r c = cell r' c.
Proof.
  unfold collide. cbn [forallb]. rewrite andb_true_r, andb_true_iff, negb_true_iff.
  rewrite bool_decide_eq_true.
  split; intros [Hn He]; (split; [|exact He]).
  - intros E. by rewrite E in Hn.
  - by destruct (cell r c).
Qed.

Lemma constraint_ok_single (rows : list Row) (r : Row) (k : Constraint)
    (c : string) :
  constraint_cols k = [c] ->
  constraint_ok rows r k = true <->
  (cell r c = NULL \/ forall r', r' ∈ rows -> cell r' c <> cell r c).
Proof.
  intros Hk. unfold constraint_ok. rewrite Hk, forallb_forall. split.
  - intros H. destruct (decide (cell r c = NULL)) as [|Hn]; [by left|right].
    intros r' Hr' He. apply list_elem_of_In in Hr'.
    specialize (H r' Hr'). apply negb_true_iff in H.
    assert (collide [c] r r' = true) by (by apply collide_single).
    congruence.
  - intros H r' Hr'. apply list_elem_of_In in Hr'. apply negb_true_iff.
    destruct (collide [c] r r') eqn:E; [|reflexivity].
    apply collide_single in E as [Hn He].
    destruct H as [H|H]; [done|]. by destruct (H r' Hr').
Qed.



Lemma columns_ok_id (r : Row) :
  (forall c, In c (columns marketplace_sources) -> column_ok r c = true) ->
  cell r "id" <> NULL.
Proof.
  intros H. apply columns_ok_stored in H as [(i & -> & _) _]. discriminate.
Qed.

Lemma constraints_ok_iff (rows : list Row) (r : Row) :
  cell r "id" <> NULL ->
  (forall k, In k (constraints marketplace_sources) -> constraint_ok rows r k = true) <->
  (forall r', r' ∈ rows -> cell r' "id" <> cell r "id")
  /\ (cell r "name" = NULL \/ forall r', r' ∈ rows -> cell r' "name" <> cell r "name").
Proof.
  intros Hid. split.
  - intros H. split.
    + assert (Hk : constraint_ok rows r (PrimaryKeyConstraint ["id"]) = true)
        by (apply H; simpl; auto).
      apply (constraint_ok_single rows r (PrimaryKeyConstraint ["id"]) "id" eq_refl)
        in Hk as [Hk|Hk]; done.
    + apply (constraint_ok_single rows r
               (UniqueConstraint ["name"] (Some "_marketplace_sources_uc")) "name" eq_refl).
      apply H. simpl. auto.
  - intros [Hi Hn] k Hk. simpl in Hk. destruct Hk as [<-|[<-|[]]].
    + apply (constraint_ok_single rows r (PrimaryKeyConstraint ["id"]) "id" eq_refl).
      by right.
    + by apply (constraint_ok_single rows r
                  (UniqueConstraint ["name"] (Some "_marketplace_sources_uc"))
                  "name" eq_refl).
Qed.

(** X1. Whenever an INSERT into [marketplace_sources] succeeds, the
    stored rows stay as they are and one row is put after them. It holds
    what the given row holds in every column but [id], and is the given
    row if that came with an id; its id is an integer within 64 bits that
    no stored row has; and the given name is NULL or the name of no stored
    row. *)
Theorem insert_row_stores (rows rows' : list Row) (r : Row) :
  insert_row marketplace_sources rows r = Ok rows' ->
  exists stored,
    rows' = rows ++ [stored]
    /\ (forall c, c <> "id" -> cell stored c = cell r c)
    /\ (cell r "id" <> NULL -> stored = r)
    /\ (exists i, cell stored "id" = VInt i /\ int64 i = true)
    /\ (forall r', r' ∈ rows -> cell r' "id" <> cell stored "id")
    /\ (cell r "name" = NULL
        \/ forall r', r' ∈ rows -> cell r' "name" <> cell r "name").
Proof.
  intros H. apply insert_row_ok_inv in H as (stored & Ha & -> & Hc & Hk).
  apply assign_id_ok in Ha as (Hsame & Hgiven & _).
  pose proof (columns_ok_id stored Hc) as Hid.
  apply (constraints_ok_iff rows stored Hid) in Hk as [Hi Hn].
  exists stored. split; [reflexivity|]. split; [exact Hsame|]. split; [exact Hgiven|].
  split; [by apply columns_ok_stored in Hc as [? _]|]. split; [exact Hi|].
  by rewrite (Hsame "name") in Hn.
Qed.

Lemma insert_row_stores_witness :
  exists stored,
    insert_row marketplace_sources [named_source 1 "hub"]
      (mkRow None None (Some 5) None None None)
    = Ok [named_source 1 "hub"; stored]
    /\ cell stored "index" = VInt 5
    /\ cell stored "id" <> cell (named_source 1 "hub") "id".
Proof.
  assert (E : insert_row marketplace_sources [named_source 1 "hub"]
                (mkRow None None (Some 5) None None None)
              = Ok [named_source 1 "hub"; mkRow (Some 2) None (Some 5) None None None])
    by reflexivity.
  destruct (insert_row_stores _ _ _ E) as (stored & Hrows & Hsame & _ & _ & Hfresh & _).
  exists stored. split; [by rewrite E, Hrows|]. split.
  - by rewrite (Hsame "index").
  - intros Heq. apply (Hfresh (named_source 1 "hub")); [apply list_elem_of_here|].
    by symmetry.
Defined.

Lemma satisfies_constraints_snoc (rows : list Row) (r : Row) :
  satisfies_constraints (rows ++ [r]) <->
  satisfies_constraints rows
  /\ (forall c, In c (columns marketplace_sources) -> column_ok r c = true)
  /\ (forall r', r' ∈ rows -> cell r' "id" <> cell r "id")
  /\ (cell r "name" = NULL
      \/ forall r', r' ∈ rows -> cell r' "name" <> cell r "name").
Proof.
  unfold satisfies_constraints. split.
  - intros (Hc & Hi & Hn). split; [split; [|split]|split; [|split]].
    + intros r0 c Hr0. apply Hc. apply elem_of_app. by left.
    + intros i j r1 r2 Hij H1 H2.
      apply (Hi i j); [done| |]; by apply lookup_app_l_Some.
    + intros i j r1 r2 Hij H1 H2.
      apply (Hn i j); [done| |]; by apply lookup_app_l_Some.
    + intros c. apply Hc. apply elem_of_app. right. apply list_elem_of_here.
    + intros r' Hr'. apply list_elem_of_lookup in Hr' as [i Hr'].
      apply (Hi i (List.length rows)).
      * apply lookup_lt_Some in Hr'. lia.
      * by apply lookup_app_l_Some.
      * apply lookup_snoc_Some. by right.
    + destruct (decide (cell r "name" = NULL)) as [|Hnn]; [by left|right].
      intros r' Hr' He. apply list_elem_of_lookup in Hr' as [i Hr'].
      apply (Hn (List.length rows) i r r'); [| | |done|done].
      * apply lookup_lt_Some in Hr'. lia.
      * apply lookup_snoc_Some. by right.
      * by apply lookup_app_l_Some.
  - intros ((Hc & Hi & Hn) & Hrc & Hri & Hrn). split; [|split].
    + intros r0 c Hr0. apply elem_of_app in Hr0 as [Hr0|Hr0]; [by apply Hc|].
      apply list_elem_of_singleton in Hr0 as ->. apply Hrc.
    + intros i j r1 r2 Hij H1 H2.
      apply lookup_snoc_Some in H1 as [[_ H1]|[-> <-]];
        apply lookup_snoc_Some in H2 as [[Hj H2]|[-> <-]].
      * by apply (Hi i j).
      * apply Hri. apply list_elem_of_lookup. by exists i.
      * intros E. symmetry in E. revert E. apply Hri.
        apply list_elem_of_lookup. by exists j.
      * done.
    + intros i j r1 r2 Hij H1 H2 Hnn.
      apply lookup_snoc_Some in H1 as [[_ H1]|[-> <-]];
        apply lookup_snoc_Some in H2 as [[Hj H2]|[-> <-]].
      * by apply (Hn i j).
      * destruct Hrn as [Hrn|Hrn]; [congruence|].
        apply Hrn. apply list_elem_of_lookup. by exists i.
      * destruct Hrn as [Hrn|Hrn]; [done|].
        intros E. symmetry in E. revert E. apply Hrn.
        apply list_elem_of_lookup. by exists j.
      * done.
Qed.

Lemma reachable_satisfies (rows : list Row) :
  reachable marketplace_sources rows -> satisfies_constraints rows.
Proof.
  induction 1 as [|rows r0 rows' _ IH Hins].
  - split; [|split].
    + intros r c Hr. by apply elem_of_nil in Hr.
    + intros i j r1 r2 _ H1. by rewrite lookup_nil in H1.
    + intros i j r1 r2 _ H1. by rewrite lookup_nil in H1.
  - apply insert_row_ok_inv in Hins as (r & _ & -> & Hc & Hk).
    apply satisfies_constraints_snoc. split; [exact IH|]. split; [exact Hc|].
    apply constraints_ok_iff; [|exact Hk]. by apply columns_ok_id.
Qed.



(** X2. The primary key holds in every content the table can have:
    whatever successful INSERTs built it, each of its rows has an id, an
    integer within 64 bits, and no two of its rows have the same id. *)
Theorem reachable_keeps_primary_key (rows : list Row) :
  reachable marketplace_sources rows ->
  (forall r, r ∈ rows -> exists i, cell r "id" = VInt i /\ int64 i = true)
  /\ (forall (i j : nat) (r1 r2 : Row),
        i <> j -> rows !! i = Some r1 -> rows !! j = Some r2 ->
        cell r1 "id" <> cell r2 "id").
Proof.
  intros H. apply reachable_satisfies in H as (Hc & Hi & _). split; [|exact Hi].
  intros r Hr.
  assert (Hcols : forall c, In c (columns marketplace_sources) -> column_ok r c = true)
    by (intros c; by apply Hc).
  by apply columns_ok_stored in Hcols as [? _].
Qed.

Lemma reachable_keeps_primary_key_witness :
  cell (named_source 1 "hub") "id" <> cell (named_source 2 "mirror") "id".
Proof.
  destruct (reachable_keeps_primary_key _ two_named_reachable) as [_ H].
  by apply (H 0%nat 1%nat).
Defined.



Lemma downgrade_ok (db : Schema) (t : Table) :
  db !! "marketplace_sources" = Some t ->
  downgrade db = Ok (delete "marketplace_sources" db).
Proof. intros H. unfold downgrade, drop_table. by rewrite H. Qed.

Lemma downgrade_fails (db : Schema) :
  db !! "marketplace_sources" = None ->
  downgrade db = Raise (NoSuchTable "marketplace_sources").
Proof. intros H. unfold downgrade, drop_table. by rewrite H. Qed.

Lemma upgrade_ok (db : Schema) :
  db !! "marketplace_sources" = None ->
  upgrade db = Ok (<["marketplace_sources" := marketplace_sources]> db).
Proof. intros H. unfold upgrade, create_table. by rewrite H. Qed.

(** X4. [downgrade] applies exactly where the table exists; it then removes
    the table [marketplace_sources], whatever its definition, and leaves
    every other table as it is. *)
Theorem downgrade_drops_marketplace_sources (db : Schema) (t : Table) :
  db !! "marketplace_sources" = Some t ->
  exists db',
    downgrade db = Ok db'
    /\ db' !! "marketplace_sources" = None
    /\ dom db' = dom db ∖ {["marketplace_sources"]}
    /\ (forall t', t' <> "marketplace_sources" -> db' !! t' = db !! t').
Proof.
  intros Ht. exists (delete "marketplace_sources" db).
  split; [by apply (downgrade_ok db t)|]. split; [apply lookup_delete_eq|].
  split; [apply dom_delete_L|]. intros t' Hne. by apply lookup_delete_ne.
Qed.

Lemma downgrade_drops_marketplace_sources_witness :
  exists db',
    downgrade legacy_schema = Ok db'
    /\ db' !! "marketplace_sources" = None
    /\ db' !! "projects" = legacy_schema !! "projects".
Proof.
  destruct (downgrade_drops_marketplace_sources legacy_schema _ eq_refl)
    as (db' & Hd & Hn & _ & Ho).
  exists db'. split; [exact Hd|]. split; [exact Hn|]. by apply Ho.
Defined.

(** X5. On every schema exactly one of the two steps applies, [upgrade] where
    the table is missing and [downgrade] where it exists; so neither step
    can be run twice in a row: the second run raises. *)
Theorem migration_steps_alternate (db : Schema) :
  is_ok (upgrade db) = negb (is_ok (downgrade db))
  /\ is_ok (upgrade db) = bool_decide (db !! "marketplace_sources" = None)
  /\ is_ok (bind (upgrade db) upgrade) = false
  /\ is_ok (bind (downgrade db) downgrade) = false.
Proof.
  destruct (db !! "marketplace_sources") as [t|] eqn:E.
  - rewrite (upgrade_on_existing db t E), (downgrade_ok db t E). simpl.
    rewrite downgrade_fails by apply lookup_delete_eq. done.
  - rewrite (upgrade_ok db E), (downgrade_fails db E). simpl.
    by rewrite (upgrade_on_existing _ marketplace_sources) by apply lookup_insert_eq.
Qed.

(** X6. [downgrade] followed by [upgrade] succeeds wherever the table exists
    and leaves the table with the definition of this migration: the schema
    is the one it started from only if the table had that very definition;
    any other definition is replaced. *)
Theorem downgrade_then_upgrade (db : Schema) (t : Table) :
  db !! "marketplace_sources" = Some t ->
  bind (downgrade db) upgrade
    = Ok (<["marketplace_sources" := marketplace_sources]> db)
  /\ (bind (downgrade db) upgrade = Ok db <-> t = marketplace_sources).
Proof.
  intros Ht.
  assert (H : bind (downgrade db) upgrade
              = Ok (<["marketplace_sources" := marketplace_sources]> db)).
  { rewrite (downgrade_ok db t Ht). simpl.
    rewrite upgrade_ok by apply lookup_delete_eq. by rewrite insert_delete_eq. }
  split; [exact H|]. rewrite H. split.
  - intros [= Heq].
    assert (Hl : (<["marketplace_sources" := marketplace_sources]> db)
                   !! "marketplace_sources" = db !! "marketplace_sources")
      by (by rewrite Heq).
    rewrite lookup_insert_eq, Ht in Hl. by injection Hl.
  - intros ->. f_equal. by apply insert_id.
Qed.

Lemma downgrade_then_upgrade_witness :
  bind (downgrade legacy_schema) upgrade
    = Ok (<["marketplace_sources" := marketplace_sources]> legacy_schema)
  /\ bind (downgrade legacy_schema) upgrade <> Ok legacy_schema.
Proof.
  destruct (downgrade_then_upgrade legacy_schema _ eq_refl) as [H Hiff].
  split; [exact H|]. intros E. apply Hiff in E. discriminate E.
Defined.

End MigrationLaws.

(** * Further facts about the frontend-spec schemas *)

Module FrontendSpecLaws.
Import FrontendSpec FrontendSpecFacts.

Lemma ProjectMembershipFeatureFlag_call_value (m : ProjectMembershipFeatureFlag) :
  enum_call ProjectMembershipFeatureFlag_members ProjectMembershipFeatureFlag_value
    (PyStr (ProjectMembershipFeatureFlag_value m)) = Some m.
Proof. by destruct m. Qed.

Lemma AuthenticationFeatureFlag_call_value (m : AuthenticationFeatureFlag) :
  enum_call AuthenticationFeatureFlag_members AuthenticationFeatureFlag_value
    (PyStr (AuthenticationFeatureFlag_value m)) = Some m.
Proof. by destruct m. Qed.

(** X7. Validation inverts [dict()]: the dict of a [FeatureFlags] object,
    with whatever other keys beside it, validates to that object; and an
    input that validates holds the dict of the object it validates to. *)
Theorem FeatureFlags_validate_dict (ff : FeatureFlags)
    (data extra : gmap string PyVal) :
  FeatureFlags_validate (FeatureFlags_dict ff ∪ extra) = Ok ff
  /\ FeatureFlags_validate (FeatureFlags_dict ff) = Ok ff
  /\ match FeatureFlags_validate data with
     | Ok ff' => FeatureFlags_dict ff' ⊆ data
     | Raise _ => True
     end.
Proof.
  assert (H : forall extra', FeatureFlags_validate (FeatureFlags_dict ff ∪ extra') = Ok ff).
  { intros extra'. unfold FeatureFlags_validate, validate_enum_field.
    rewrite (lookup_union_Some_l _ _ "project_membership"
               (PyStr (ProjectMembershipFeatureFlag_value (project_membership ff))))
      by apply lookup_insert_eq.
    rewrite (lookup_union_Some_l _ _ "authentication"
               (PyStr (AuthenticationFeatureFlag_value (authentication ff))))
      by (unfold FeatureFlags_dict; rewrite lookup_insert_ne by done;
          apply lookup_singleton_eq).
    rewrite ProjectMembershipFeatureFlag_call_value,
      AuthenticationFeatureFlag_call_value.
    by destruct ff. }
  split; [apply H|]. split.
  - rewrite <- (H ∅). by rewrite (right_id_L ∅ (∪)).
  - destruct (FeatureFlags_validate data) as [ff'|] eqn:E; [|done].
    unfold FeatureFlags_validate in E.
    destruct (validate_enum_field _ _ "project_membership" data) as [p|] eqn:Ep;
      [|discriminate].
    destruct (validate_enum_field _ _ "authentication" data) as [a|] eqn:Ea;
      [|by destruct e].
    injection E as <-.
    apply validate_enum_field_value in Ep, Ea.
    unfold FeatureFlags_dict. simpl.
    apply insert_subseteq_l; [done|]. by apply map_singleton_subseteq_l.
Qed.

(** X8. A ValidationError of [FeatureFlags] reports every invalid field, once
    and in declaration order; validation does not stop at the first
    invalid field, and it reports no valid one. *)
Theorem FeatureFlags_reports_every_invalid_field (data : gmap string PyVal)
    (errs : list ErrorItem) :
  FeatureFlags_validate data = Raise errs ->
  let valid_membership :=
    exists s, data !! "project_membership" = Some (PyStr s)
              /\ s ∈ ["enabled"; "disabled"] in
  let valid_authentication :=
    exists s, data !! "authentication" = Some (PyStr s)
              /\ s ∈ ["none"; "basic"; "bearer"; "iguazio"] in
  (~ valid_membership /\ ~ valid_authentication
   /\ map loc errs = ["project_membership"; "authentication"])
  \/ (~ valid_membership /\ valid_authentication
      /\ map loc errs = ["project_membership"])
  \/ (valid_membership /\ ~ valid_authentication
      /\ map loc errs = ["authentication"]).
Proof.
  pose proof (validate_enum_field_ok ProjectMembershipFeatureFlag_members
                ProjectMembershipFeatureFlag_value "project_membership" data) as Hp.
  pose proof (validate_enum_field_ok AuthenticationFeatureFlag_members
                AuthenticationFeatureFlag_value "authentication" data) as Ha.
  change (map ProjectMembershipFeatureFlag_value ProjectMembershipFeatureFlag_members)
    with ["enabled"; "disabled"] in Hp.
  change (map AuthenticationFeatureFlag_value AuthenticationFeatureFlag_members)
    with ["none"; "basic"; "bearer"; "iguazio"] in Ha.
  assert (Hloc : forall (E : Type) (ms : list E) (vo : E -> string) (f : string) e,
            validate_enum_field ms vo f data = Raise e -> loc e = f).
  { intros E ms vo f e. unfold validate_enum_field.
    destruct (data !! f) as [[| | |]|]; simpl;
      try destruct (List.find _ ms); by intros [= <-]. }
  unfold FeatureFlags_validate. intros He. simpl.
  destruct (validate_enum_field _ _ "project_membership" data) as [p|ep] eqn:Ep;
    destruct (validate_enum_field _ _ "authentication" data) as [a|ea] eqn:Ea;
    simpl in *; try discriminate He; injection He as <-; simpl.
  - right. right. rewrite (Hloc _ _ _ _ _ Ea).
    split; [by apply Hp|]. split; [|done]. intros H. by apply Ha in H.
  - right. left. rewrite (Hloc _ _ _ _ _ Ep).
    split; [|split; [by apply Ha|done]]. intros H. by apply Hp in H.
  - left. rewrite (Hloc _ _ _ _ _ Ep), (Hloc _ _ _ _ _ Ea).
    split; [|split; [|done]]; intros H; [by apply Hp in H|by apply Ha in H].
Qed.

Lemma FeatureFlags_reports_every_invalid_field_witness :
  FeatureFlags_validate {["project_membership" := PyStr "Enabled"]}
    = Raise [ mkErrorItem "project_membership" (type_error_enum ["enabled"; "disabled"]);
              mkErrorItem "authentication" value_error_missing ]
  /\ ~ (exists s, ({["project_membership" := PyStr "Enabled"]} : gmap string PyVal)
                    !! "project_membership" = Some (PyStr s)
                  /\ s ∈ ["enabled"; "disabled"]).
Proof.
  assert (E : FeatureFlags_validate {["project_membership" := PyStr "Enabled"]}
              = Raise [ mkErrorItem "project_membership"
                          (type_error_enum ["enabled"; "disabled"]);
                        mkErrorItem "authentication" value_error_missing ])
    by reflexivity.
  split; [exact E|].
  destruct (FeatureFlags_reports_every_invalid_field _ _ E)
    as [(H & _ & _)|[(H & _ & _)|(_ & _ & H)]]; [exact H|exact H|discriminate H].
Defined.

Lemma str_of_int_Some (z : Z) (s : string) :
  str_of_int z = Some s <-> Z.abs z < 10 ^ 4300 /\ s = pretty z.
Proof.
  unfold str_of_int, int_max_str_digits.
  destruct (Z.ltb_spec (Z.abs z) (10 ^ 4300)) as [Hlt|Hge].
  - split; [by intros [= <-]|by intros [_ ->]].
  - split; [discriminate|]. intros [Hlt _]. lia.
Qed.

Lemma str_of_int_None (z : Z) :
  str_of_int z = None <-> 10 ^ 4300 <= Z.abs z.
Proof.
  unfold str_of_int, int_max_str_digits.
  destruct (Z.ltb_spec (Z.abs z) (10 ^ 4300)) as [Hlt|Hge].
  - split; [discriminate|]. lia.
  - by split.
Qed.

(** One [Optional[str]] field: what it holds after validation, and when
    validation fails. *)
Lemma validate_optional_str_spec (name : string) (data : gmap string PyVal) :
  match validate_optional_str name data with
  | Ok o =>
    (o = None <-> data !! name = None \/ data !! name = Some PyNone)
    /\ (forall s, data !! name = Some (PyStr s) -> o = Some s)
    /\ (forall z, data !! name = Some (PyInt z) ->
                  o = Some (pretty z) /\ Z.abs z < 10 ^ 4300)
    /\ (forall b, data !! name = Some (PyBool b) ->
                  o = Some (if b then "True" else "False"))
  | Raise name' =>
    name' = name /\ exists z, data !! name = Some (PyInt z) /\ 10 ^ 4300 <= Z.abs z
  end.
Proof.
  unfold validate_optional_str.
  destruct (data !! name) as [[|b|z|s]|]; simpl.
  - split; [split; auto|].
    split; [intros ? [=]|]. split; [intros ? [=]|]. intros ? [=].
  - split; [split; [discriminate|intros [[=]|[=]]]|].
    split; [intros ? [=]|]. split; [intros ? [=]|]. by intros ? [= <-].
  - destruct (str_of_int z) as [s|] eqn:E.
    + apply str_of_int_Some in E as [Hlt ->].
      split; [split; [discriminate|intros [[=]|[=]]]|].
      split; [intros ? [=]|]. split; [by intros ? [= <-]|]. intros ? [=].
    + apply str_of_int_None in E. split; [reflexivity|]. by exists z.
  - split; [split; [discriminate|intros [[=]|[=]]]|].
    split; [by intros ? [= <-]|]. split; [intros ? [=]|]. intros ? [=].
  - split; [split; auto|].
    split; [intros ? [=]|]. split; [intros ? [=]|]. intros ? [=].
Qed.

Lemma validate_optional_str_dict (name : string) (o : option string)
    (data : gmap string PyVal) :
  data !! name = Some (from_option PyStr PyNone o) ->
  validate_optional_str name data = Ok o.
Proof. intros H. unfold validate_optional_str. rewrite H. by destruct o. Qed.

Lemma validate_optional_str_ok (name : string) (data : gmap string PyVal) :
  is_ok (validate_optional_str name data) = true <->
  forall z, data !! name = Some (PyInt z) -> Z.abs z < 10 ^ 4300.
Proof.
  pose proof (validate_optional_str_spec name data) as H.
  destruct (validate_optional_str name data) as [o|e]; simpl.
  - split; [intros _|done]. intros z Hz.
    destruct H as (_ & _ & H & _). by apply H in Hz as [_ ?].
  - split; [discriminate|]. intros Hlt.
    destruct H as (_ & z & Hz & Hbig). specialize (Hlt z Hz). lia.
Qed.

Lemma validate_optional_str_raise (name e : string) (data : gmap string PyVal) :
  validate_optional_str name data = Raise e -> e = name.
Proof.
  intros H. pose proof (validate_optional_str_spec name data) as Hs.
  rewrite H in Hs. by destruct Hs.
Qed.

Lemma ResourceSpec_validate_ok (data : gmap string PyVal) (r : ResourceSpec) :
  ResourceSpec_validate data = Ok r ->
  forall f, f ∈ ["cpu"; "memory"; "gpu"] ->
            validate_optional_str f data = Ok (ResourceSpec_field f r).
Proof.
  unfold ResourceSpec_validate.
  destruct (validate_optional_str "cpu" data) as [c|] eqn:Ec;
    destruct (validate_optional_str "memory" data) as [m|] eqn:Em;
    destruct (validate_optional_str "gpu" data) as [g|] eqn:Eg;
    try discriminate.
  intros [= <-] f Hf.
  apply elem_of_cons in Hf as [->|Hf]; [exact Ec|].
  apply elem_of_cons in Hf as [->|Hf]; [exact Em|].
  apply list_elem_of_singleton in Hf as ->. exact Eg.
Qed.

Lemma ResourceSpec_validate_raise (data : gmap string PyVal) (errs : list string) :
  ResourceSpec_validate data = Raise errs ->
  errs <> []
  /\ forall f, f ∈ errs ->
       f ∈ ["cpu"; "memory"; "gpu"] /\ is_ok (validate_optional_str f data) = false.
Proof.
  unfold ResourceSpec_validate.
  destruct (validate_optional_str "cpu" data) as [c|ec] eqn:Ec;
    destruct (validate_optional_str "memory" data) as [m|em] eqn:Em;
    destruct (validate_optional_str "gpu" data) as [g|eg] eqn:Eg;
    try discriminate; intros [= <-]; simpl; (split; [discriminate|]);
    try (pose proof (validate_optional_str_raise _ _ _ Ec) as ->);
    try (pose proof (validate_optional_str_raise _ _ _ Em) as ->);
    try (pose proof (validate_optional_str_raise _ _ _ Eg) as ->);
    intros f Hf;
    repeat (apply elem_of_cons in Hf as [->|Hf];
            [split; [set_solver|by rewrite ?Ec, ?Em, ?Eg]|]);
    by apply elem_of_nil in Hf.
Qed.

Lemma ResourceSpec_validate_is_ok (data : gmap string PyVal) :
  is_ok (ResourceSpec_validate data) = true <->
  forall f, f ∈ ["cpu"; "memory"; "gpu"] ->
            is_ok (validate_optional_str f data) = true.
Proof.
  split.
  - destruct (ResourceSpec_validate data) as [r|] eqn:E; [|discriminate].
    intros _ f Hf. by rewrite (ResourceSpec_validate_ok data r E f Hf).
  - intros H. destruct (ResourceSpec_validate data) as [r|errs] eqn:E; [done|].
    apply ResourceSpec_validate_raise in E as [Hne Herrs].
    destruct errs as [|f errs]; [done|].
    destruct (Herrs f (list_elem_of_here _ _)) as [Hf Hbad].
    by rewrite (H f Hf) in Hbad.
Qed.

(** X9. [ResourceSpec] on an input object of scalars. Validation inverts
    [dict()], other keys being ignored, and [ResourceSpec()] has every
    field unset. Validation fails exactly when some field holds an int of
    more than 4300 digits, and then reports such fields only. When it
    succeeds, each of the three fields is unset exactly when its key is
    missing or holds None, holds the string it was given, the decimal
    string of the int it was given, or "True" or "False" for a bool. *)
Theorem ResourceSpec_validate_dict (r : ResourceSpec)
    (data extra : gmap string PyVal) :
  ResourceSpec_validate (ResourceSpec_dict r ∪ extra) = Ok r
  /\ ResourceSpec_validate ∅ = Ok ResourceSpec_default
  /\ (is_ok (ResourceSpec_validate data) = true <->
      forall f z, f ∈ ["cpu"; "memory"; "gpu"] ->
                  data !! f = Some (PyInt z) -> Z.abs z < 10 ^ 4300)
  /\ match ResourceSpec_validate data with
     | Ok r' =>
       forall f, f ∈ ["cpu"; "memory"; "gpu"] ->
         (ResourceSpec_field f r' = None
          <-> data !! f = None \/ data !! f = Some PyNone)
         /\ (forall s, data !! f = Some (PyStr s) -> ResourceSpec_field f r' = Some s)
         /\ (forall z, data !! f = Some (PyInt z) ->
                       ResourceSpec_field f r' = Some (pretty z))
         /\ (forall b, data !! f = Some (PyBool b) ->
                       ResourceSpec_field f r' = Some (if b then "True" else "False"))
     | Raise errs =>
       errs <> []
       /\ forall f, f ∈ errs ->
            f ∈ ["cpu"; "memory"; "gpu"]
            /\ exists z, data !! f = Some (PyInt z) /\ 10 ^ 4300 <= Z.abs z
     end.
Proof.
  split; [|split; [reflexivity|split]].
  - unfold ResourceSpec_validate, ResourceSpec_dict.
    rewrite (validate_optional_str_dict "cpu" (cpu r)).
    2:{ apply lookup_union_Some_l, lookup_insert_eq. }
    rewrite (validate_optional_str_dict "memory" (memory r)).
    2:{ apply lookup_union_Some_l. rewrite lookup_insert_ne by done.
        apply lookup_insert_eq. }
    rewrite (validate_optional_str_dict "gpu" (gpu r)).
    2:{ apply lookup_union_Some_l. rewrite !lookup_insert_ne by done.
        apply lookup_singleton_eq. }
    by destruct r.
  - rewrite ResourceSpec_validate_is_ok. split.
    + intros H f z Hf. by apply validate_optional_str_ok, H.
    + intros H f Hf. apply validate_optional_str_ok. intros z. by apply H.
  - destruct (ResourceSpec_validate data) as [r'|errs] eqn:E.
    + intros f Hf. pose proof (validate_optional_str_spec f data) as Hs.
      rewrite (ResourceSpec_validate_ok data r' E f Hf) in Hs.
      destruct Hs as (H1 & H2 & H3 & H4).
      split; [exact H1|]. split; [exact H2|]. split; [|exact H4].
      intros z Hz. by apply H3 in Hz as [? _].
    + apply ResourceSpec_validate_raise in E as [Hne Herrs].
      split; [exact Hne|]. intros f Hf. destruct (Herrs f Hf) as [Hin Hbad].
      split; [exact Hin|].
      pose proof (validate_optional_str_spec f data) as Hs.
      destruct (validate_optional_str f data) as [o|e]; [discriminate Hbad|].
      by destruct Hs.
Qed.

End FrontendSpecLaws.

(** * Further facts about the documented time expressions *)

Module TimeExpressionLaws.
Import TSDB.

Lemma list_ascii_of_string_app (a b : string) :
  list_ascii_of_string (a ++ b)%string
  = list_ascii_of_string a ++ list_ascii_of_string b.
Proof. induction a as [|c a IH]; simpl; [reflexivity|]. by rewrite IH. Qed.

Lemma all_digits_forallb (s : string) :
  all_digits s = forallb is_digit (list_ascii_of_string s).
Proof. induction s as [|c s IH]; simpl; [reflexivity|]. by rewrite IH. Qed.

Lemma drop_digits_app (n t : list ascii) :
  forallb is_digit n = true -> drop_digits (n ++ t) = drop_digits t.
Proof.
  induction n as [|c n IH]; simpl; [reflexivity|].
  intros H. apply andb_true_iff in H as [Hc Hn]. rewrite Hc. by apply IH.
Qed.

Lemma drop_digits_split (l : list ascii) :
  exists n, l = n ++ drop_digits l /\ forallb is_digit n = true.
Proof.
  induction l as [|c l (n & Hl & Hn)]; simpl; [by exists []|].
  destruct (is_digit c) eqn:Hc.
  - exists (c :: n). simpl. rewrite Hc, Hn. split; [by rewrite <- Hl|reflexivity].
  - by exists [].
Qed.

Lemma drop_digits_stop (c : ascii) (t : list ascii) :
  is_digit c = false -> drop_digits (c :: t) = c :: t.
Proof. intros H. simpl. by rewrite H. Qed.

Lemma eat_cons (f : ascii -> bool) (p : list (ascii -> bool))
    (l rest : list ascii) :
  eat (f :: p) l = Some rest <->
  exists c l', l = c :: l' /\ f c = true /\ eat p l' = Some rest.
Proof.
  destruct l as [|c l']; simpl.
  - split; [discriminate|]. by intros (? & ? & [=] & _).
  - destruct (f c) eqn:Hf.
    + split; [intros H; by exists c, l'|]. by intros (? & ? & [= <- <-] & _ & H).
    + split; [discriminate|]. intros (? & ? & [= <- <-] & H & _). congruence.
Qed.

Lemma eat_lits (cs l rest : list ascii) :
  eat (map lit cs) l = Some rest <-> l = cs ++ rest.
Proof.
  revert l. induction cs as [|c cs IH]; intros l; simpl map.
  - simpl. split; [by intros [= ->]|by intros ->].
  - rewrite eat_cons. split.
    + intros (c' & l' & -> & Hc & He). apply Ascii.eqb_eq in Hc as ->.
      apply IH in He as ->. reflexivity.
    + intros ->. exists c, (cs ++ rest). split; [reflexivity|].
      split; [apply Ascii.eqb_refl|]. by apply IH.
Qed.

Lemma eat_digits1_Some (l rest : list ascii) :
  eat_digits1 l = Some rest <->
  exists d ds, l = d :: ds /\ is_digit d = true /\ drop_digits ds = rest.
Proof.
  unfold eat_digits1. destruct l as [|d ds].
  - split; [discriminate|]. by intros (? & ? & [=] & _).
  - destruct (is_digit d) eqn:Hd.
    + split; [intros [= <-]; by exists d, ds|].
      by intros (? & ? & [= <- <-] & _ & <-).
    + split; [discriminate|]. intros (? & ? & [= <- <-] & H & _). congruence.
Qed.

(** X10. The shape of the strings the pattern ['now-[0-9]+[units]'] matches:
    "now-", then one or more decimal digits, then one character of the
    class, and nothing after it. The class holds no digit (it is [mhd] in
    the docstring). So "now-" without a number, a number without a unit
    and a unit of two letters are not matched. *)
Theorem is_now_minus_iff (units : list ascii) (s : string) :
  (forall u, one_of units u = true -> is_digit u = false) ->
  is_now_minus units s = true <->
  exists (n : string) (u : ascii),
    s = ("now-" ++ n ++ String u EmptyString)%string
    /\ n <> EmptyString
    /\ all_digits n = true
    /\ one_of units u = true.
Proof.
  intros Hunits. unfold is_now_minus.
  change [lit "n"; lit "o"; lit "w"; lit "-"]%char
    with (map lit ["n"; "o"; "w"; "-"]%char).
  split.
  - destruct (eat _ (list_ascii_of_string s)) as [rest|] eqn:He; [|discriminate].
    apply eat_lits in He.
    destruct (eat_digits1 rest) as [[|u [|? ?]]|] eqn:Hd; try discriminate.
    intros Hu. apply eat_digits1_Some in Hd as (d & ds & -> & Hdig & Hdrop).
    destruct (drop_digits_split ds) as (n & Hds & Hn). rewrite Hdrop in Hds.
    exists (string_of_list_ascii (d :: n)), u.
    split; [|split; [|split]].
    + rewrite <- (string_of_list_ascii_of_string s), He, Hds.
      rewrite <- (string_of_list_ascii_of_string
                    ("now-" ++ string_of_list_ascii (d :: n) ++ String u EmptyString)).
      f_equal. rewrite !list_ascii_of_string_app.
      by rewrite list_ascii_of_string_of_list_ascii.
    + discriminate.
    + rewrite all_digits_forallb, list_ascii_of_string_of_list_ascii.
      simpl. by rewrite Hdig, Hn.
    + exact Hu.
  - intros (n & u & -> & Hne & Hn & Hu).
    rewrite (proj2 (eat_lits ["n"; "o"; "w"; "-"]%char _
                      (list_ascii_of_string (n ++ String u EmptyString)))) by reflexivity.
    rewrite list_ascii_of_string_app. simpl.
    rewrite all_digits_forallb in Hn.
    destruct n as [|d n]; [done|]. simpl in *.
    apply andb_true_iff in Hn as [Hd Hn]. rewrite Hd.
    rewrite (drop_digits_app _ _ Hn), (drop_digits_stop u [] (Hunits u Hu)).
    exact Hu.
Qed.

Lemma is_now_minus_iff_witness :
  is_now_minus pattern_units "now-15m" = true
  /\ is_now_minus pattern_units "now-m" = false.
Proof.
  assert (Hunits : forall u, one_of pattern_units u = true -> is_digit u = false).
  { intros u. unfold one_of, pattern_units. simpl.
    destruct (Ascii.eqb_spec u "m") as [->|]; [done|].
    destruct (Ascii.eqb_spec u "h") as [->|]; [done|].
    destruct (Ascii.eqb_spec u "d") as [->|]; [done|]. discriminate. }
  split.
  - apply (is_now_minus_iff pattern_units "now-15m" Hunits).
    exists "15"%string, "m"%char. repeat split. discriminate.
  - destruct (is_now_minus pattern_units "now-m") eqn:E; [|reflexivity].
    apply (is_now_minus_iff pattern_units "now-m" Hunits) in E
      as (n & u & Hs & Hne & _ & _).
    destruct n as [|c n]; [done|]. injection Hs as <- Hs.
    destruct n; discriminate Hs.
Defined.

Lemma is_unix_millis_iff (s : string) :
  is_unix_millis s = true <-> s <> EmptyString /\ all_digits s = true.
Proof.
  unfold is_unix_millis. rewrite bool_decide_eq_true, eat_digits1_Some.
  rewrite all_digits_forallb. split.
  - intros (d & ds & Hl & Hd & Hdrop).
    destruct (drop_digits_split ds) as (n & Hds & Hn).
    rewrite Hdrop, app_nil_r in Hds. subst n. split.
    + intros ->. discriminate Hl.
    + rewrite Hl. simpl. by rewrite Hd, Hn.
  - intros [Hne Hall]. destruct s as [|d s]; [done|]. simpl in *.
    apply andb_true_iff in Hall as [Hd Hall].
    exists d, (list_ascii_of_string s). split; [reflexivity|]. split; [exact Hd|].
    rewrite <- (app_nil_r (list_ascii_of_string s)).
    by rewrite (drop_digits_app _ [] Hall).
Qed.

Lemma is_rfc3339_head (s : string) :
  is_rfc3339 s = true ->
  exists c1 c2 c3 c4 rest,
    list_ascii_of_string s = c1 :: c2 :: c3 :: c4 :: "-"%char :: rest
    /\ is_digit c1 = true.
Proof.
  unfold is_rfc3339, rfc3339_prefix.
  destruct (eat _ (list_ascii_of_string s)) as [rest|] eqn:He; [|discriminate].
  intros _.
  apply eat_cons in He as (c1 & l1 & -> & H1 & He).
  apply eat_cons in He as (c2 & l2 & -> & _ & He).
  apply eat_cons in He as (c3 & l3 & -> & _ & He).
  apply eat_cons in He as (c4 & l4 & -> & _ & He).
  apply eat_cons in He as (c5 & l5 & -> & H5 & _).
  apply Ascii.eqb_eq in H5 as <-. by exists c1, c2, c3, c4, l5.
Qed.

Lemma is_now_minus_head (units : list ascii) (s : string) :
  is_now_minus units s = true ->
  exists c rest,
    list_ascii_of_string s = "n"%char :: "o"%char :: "w"%char :: "-"%char :: c :: rest.
Proof.
  unfold is_now_minus.
  change [lit "n"; lit "o"; lit "w"; lit "-"]%char
    with (map lit ["n"; "o"; "w"; "-"]%char).
  destruct (eat _ (list_ascii_of_string s)) as [rest|] eqn:He; [|discriminate].
  apply eat_lits in He.
  destruct (eat_digits1 rest) as [r|] eqn:Hd; [|discriminate].
  apply eat_digits1_Some in Hd as (d & ds & -> & _). intros _. by exists d, ds.
Qed.

Lemma now_chars (s : string) :
  String.eqb s "now" = true -> list_ascii_of_string s = ["n"; "o"; "w"]%char.
Proof. intros E. apply String.eqb_eq in E as ->. reflexivity. Qed.

(** X11. A string matches at most one of the forms the docstring lists for
    [start] and [end]: an RFC 3339 time, a Unix timestamp in milliseconds,
    "now", or "now-" with a number and a unit. The fifth form, 0 for the
    earliest time, is no form of its own: it is the Unix timestamp 0. *)
Theorem time_expression_forms_disjoint (units : list ascii) (s : string) :
  is_rfc3339 s && is_unix_millis s = false
  /\ is_rfc3339 s && (String.eqb s "now" || is_now_minus units s) = false
  /\ is_unix_millis s && (String.eqb s "now" || is_now_minus units s) = false
  /\ String.eqb s "now" && is_now_minus units s = false
  /\ String.eqb s "0" && negb (is_unix_millis s) = false.
Proof.
  split; [|split; [|split; [|split]]].
  - destruct (is_rfc3339 s) eqn:Hr; [|reflexivity].
    destruct (is_unix_millis s) eqn:Hu; [|reflexivity]. exfalso.
    apply is_rfc3339_head in Hr as (c1 & c2 & c3 & c4 & rest & Hl & _).
    apply is_unix_millis_iff in Hu as [_ Hu].
    rewrite all_digits_forallb, Hl in Hu. simpl in Hu.
    by rewrite !andb_false_r in Hu.
  - destruct (is_rfc3339 s) eqn:Hr; [|reflexivity]. simpl.
    apply is_rfc3339_head in Hr as (c1 & c2 & c3 & c4 & rest & Hl & H1).
    apply orb_false_iff. split.
    + destruct (String.eqb s "now") eqn:E; [|reflexivity].
      rewrite (now_chars s E) in Hl. discriminate Hl.
    + destruct (is_now_minus units s) eqn:E; [|reflexivity].
      apply is_now_minus_head in E as (c & r & E). rewrite E in Hl.
      injection Hl as <-. discriminate H1.
  - destruct (is_unix_millis s) eqn:Hu; [|reflexivity]. simpl.
    apply is_unix_millis_iff in Hu as [_ Hu]. rewrite all_digits_forallb in Hu.
    apply orb_false_iff. split.
    + destruct (String.eqb s "now") eqn:E; [|reflexivity].
      rewrite (now_chars s E) in Hu. discriminate Hu.
    + destruct (is_now_minus units s) eqn:E; [|reflexivity].
      apply is_now_minus_head in E as (c & r & E). rewrite E in Hu.
      discriminate Hu.
  - destruct (String.eqb s "now") eqn:E; [|reflexivity]. simpl.
    destruct (is_now_minus units s) eqn:E'; [|reflexivity].
    apply is_now_minus_head in E' as (c & r & E'). rewrite (now_chars s E) in E'.
    discriminate E'.
  - destruct (String.eqb s "0") eqn:E; [|reflexivity].
    apply String.eqb_eq in E as ->. reflexivity.
Qed.

End TimeExpressionLaws.
